(** * Privilege enrichment pipeline: parser, request executor, orchestrator

    A shallow embedding of the enrichment scripts
    ([add-async-extended-descriptions.py], [add-extended-descriptions.py],
    [add-extended-descriptions_two-pass.py]) together with the parts of the
    Python runtime they lean on ([str] methods, [int], [csv.reader],
    [re.search] for the one pattern used, [asyncio.Semaphore] and
    [tqdm_asyncio.gather]).

    Strings are Rocq [string]s whose characters stand for the code points
    0..255; an absent score (the empty string [""] the scripts return where
    an integer was expected) is [None]. *)

From Stdlib Require Import ZArith List String Ascii Bool Lia DecimalString.
From stdpp Require Import base list sorting.
Import ListNotations.

Local Open Scope string_scope.
Local Open Scope list_scope.

(** ** Python [str] primitives *)
Module PyStr.

Definition chars (s : string) : list ascii := list_ascii_of_string s.
Definition str (l : list ascii) : string := string_of_list_ascii l.

Definition code (c : ascii) : N := N_of_ascii c.

Definition in_range (lo hi : N) (c : ascii) : bool :=
  (lo <=? code c)%N && (code c <=? hi)%N.

(** [str.isspace] on one character: TAB..CR, FS..US, SPACE, NEL, NBSP. *)
Definition is_space (c : ascii) : bool :=
  in_range 9 13 c || in_range 28 32 c || (code c =? 133)%N || (code c =? 160)%N.

(** The characters [int] skips around a literal: it does not skip FS..US. *)
Definition is_int_space (c : ascii) : bool :=
  in_range 9 13 c || (code c =? 32)%N || (code c =? 133)%N || (code c =? 160)%N.

Definition is_digit (c : ascii) : bool := in_range 48 57 c.

Definition digit_val (c : ascii) : Z := Z.of_N (code c) - 48.

(** [str.lower] on one character of the Latin-1 range. *)
Definition lower_char (c : ascii) : ascii :=
  if in_range 65 90 c || (in_range 192 222 c && negb (code c =? 215)%N)
  then ascii_of_N (code c + 32) else c.

Definition lower (s : string) : string := str (map lower_char (chars s)).

Fixpoint drop_while (p : ascii -> bool) (l : list ascii) : list ascii :=
  match l with
  | [] => []
  | c :: l' => if p c then drop_while p l' else l
  end.

Definition strip_by (p : ascii -> bool) (s : string) : string :=
  str (rev (drop_while p (rev (drop_while p (chars s))))).

(** [s.strip()] *)
Definition strip (s : string) : string := strip_by is_space s.

Definition mem_char (c : ascii) (set : string) : bool :=
  existsb (Ascii.eqb c) (chars set).

(** [s.strip(set)] *)
Definition strip_chars (set : string) (s : string) : string :=
  strip_by (fun c => mem_char c set) s.

(** [s.startswith(p)] *)
Definition startswith (p s : string) : bool := String.prefix p s.

(** [s.endswith(p)] *)
Definition endswith (p s : string) : bool :=
  String.prefix (str (rev (chars p))) (str (rev (chars s))).

(** [sep.join(parts)] *)
Fixpoint join (sep : string) (parts : list string) : string :=
  match parts with
  | [] => ""
  | [p] => p
  | p :: ps => p ++ sep ++ join sep ps
  end.

(** [s.split(c, 1)] when [c] occurs in [s]: the text before the first
    occurrence and the text after it; [None] when [c] does not occur
    (so [c in s] is [is_Some (split_first c s)]). *)
Fixpoint split_first (c : ascii) (s : string) : option (string * string) :=
  match s with
  | EmptyString => None
  | String d s' =>
      if Ascii.eqb d c then Some ("", s')
      else match split_first c s' with
           | Some (a, b) => Some (String d a, b)
           | None => None
           end
  end.

(** Python's limit on the digits of a decimal literal given to [int]. *)
Definition int_max_str_digits : nat := 4300.

(** The digits of a literal after the sign: a digit, then digits each
    optionally preceded by one underscore.  [acc] is the value so far and
    [n] the number of digits seen; [after_digit] says whether the previous
    character was a digit (an underscore is only legal there, and the
    literal has to end on a digit). *)
Fixpoint int_digits (l : list ascii) (after_digit : bool) (acc : Z) (n : nat)
  : option (Z * nat) :=
  match l with
  | [] => if after_digit then Some (acc, n) else None
  | c :: l' =>
      if is_digit c then int_digits l' true (10 * acc + digit_val c) (S n)
      else if Ascii.eqb c "_" && after_digit then int_digits l' false acc n
      else None
  end.

Definition int_unsigned (l : list ascii) : option Z :=
  match int_digits l false 0 0 with
  | Some (v, n) => if Nat.leb n int_max_str_digits then Some v else None
  | None => None
  end.

(** [int(s)] for a [str]: [None] stands for the [ValueError]. *)
Definition py_int (s : string) : option Z :=
  match rev (drop_while is_int_space (rev (drop_while is_int_space (chars s)))) with
  | c :: l =>
      if Ascii.eqb c "-" then option_map Z.opp (int_unsigned l)
      else if Ascii.eqb c "+" then int_unsigned l
      else int_unsigned (c :: l)
  | [] => None
  end.

Definition is_Some_b {A} (o : option A) : bool :=
  match o with
  | Some _ => true
  | None => false
  end.

(** [str(n)] for an [int]. *)
Definition py_str_int (n : Z) : string := NilZero.string_of_int (Z.to_int n).

End PyStr.

(** ** [csv.reader(io.StringIO(text))] with the default (excel) dialect

    The reader is CPython's character automaton (as of 3.11, where a NUL
    is an ordinary character) for the dialect delimiter comma, quotechar
    double quote, doublequote on, no escape character, no initial-space
    skipping, non-strict.  The states that only an escape character
    reaches are not part of it. *)
Module Csv.
Import PyStr.

Inductive parser_state :=
| START_RECORD | START_FIELD | IN_FIELD
| IN_QUOTED_FIELD | QUOTE_IN_QUOTED_FIELD | EAT_CRNL.

Definition parser_state_eqb (a b : parser_state) : bool :=
  match a, b with
  | START_RECORD, START_RECORD | START_FIELD, START_FIELD
  | IN_FIELD, IN_FIELD | IN_QUOTED_FIELD, IN_QUOTED_FIELD
  | QUOTE_IN_QUOTED_FIELD, QUOTE_IN_QUOTED_FIELD | EAT_CRNL, EAT_CRNL => true
  | _, _ => false
  end.

(** What the automaton is fed: a character of the line, or the
    end-of-line marker the reader adds after each line. *)
Inductive input := Ch (c : ascii) | EOL.

Definition is_nl (i : input) : bool :=
  match i with
  | Ch c => Ascii.eqb c "010" || Ascii.eqb c "013"
  | EOL => false
  end.

Definition is_ch (d : ascii) (i : input) : bool :=
  match i with
  | Ch c => Ascii.eqb c d
  | EOL => false
  end.

Definition delimiter : ascii := ",".
Definition quotechar : ascii := "034".

(** [csv.field_size_limit()] *)
Definition field_limit : N := 131072.

Record reader := {
  state : parser_state;
  field : list ascii;      (* the field being read, last character first *)
  field_len : N;
  fields : list string     (* the fields of the record, last field first *)
}.

(** [parse_reset] *)
Definition parse_reset : reader :=
  {| state := START_RECORD; field := []; field_len := 0; fields := [] |}.

(** [parse_save_field] *)
Definition parse_save_field (r : reader) : reader :=
  {| state := state r; field := []; field_len := 0;
     fields := str (rev (field r)) :: fields r |}.

(** [parse_add_char]: [None] is the "field larger than field limit" error. *)
Definition parse_add_char (i : input) (r : reader) : option reader :=
  match i with
  | Ch c =>
      if (field_limit <=? field_len r)%N then None
      else Some {| state := state r; field := c :: field r;
                   field_len := field_len r + 1; fields := fields r |}
  | EOL => None
  end.

Definition set_state (s : parser_state) (r : reader) : reader :=
  {| state := s; field := field r; field_len := field_len r; fields := fields r |}.

Definition after_line_end (i : input) : parser_state :=
  match i with EOL => START_RECORD | Ch _ => EAT_CRNL end.

(** The [START_FIELD] case, which [START_RECORD] falls through to. *)
Definition start_field (i : input) (r : reader) : option reader :=
  if is_nl i || match i with EOL => true | _ => false end
  then Some (set_state (after_line_end i) (parse_save_field r))
  else if is_ch quotechar i then Some (set_state IN_QUOTED_FIELD r)
  else if is_ch delimiter i then Some (parse_save_field r)
  else option_map (set_state IN_FIELD) (parse_add_char i r).

(** [parse_process_char]: [None] is a raised [csv.Error]. *)
Definition parse_process_char (i : input) (r : reader) : option reader :=
  match state r with
  | START_RECORD =>
      match i with
      | EOL => Some r
      | Ch _ =>
          if is_nl i then Some (set_state EAT_CRNL r)
          else start_field i (set_state START_FIELD r)
      end
  | START_FIELD => start_field i r
  | IN_FIELD =>
      if is_nl i || match i with EOL => true | _ => false end
      then Some (set_state (after_line_end i) (parse_save_field r))
      else if is_ch delimiter i then Some (set_state START_FIELD (parse_save_field r))
      else parse_add_char i r
  | IN_QUOTED_FIELD =>
      match i with
      | EOL => Some r
      | Ch _ =>
          if is_ch quotechar i then Some (set_state QUOTE_IN_QUOTED_FIELD r)
          else parse_add_char i r
      end
  | QUOTE_IN_QUOTED_FIELD =>
      if is_ch quotechar i then option_map (set_state IN_QUOTED_FIELD) (parse_add_char i r)
      else if is_ch delimiter i then Some (set_state START_FIELD (parse_save_field r))
      else if is_nl i || match i with EOL => true | _ => false end
      then Some (set_state (after_line_end i) (parse_save_field r))
      else option_map (set_state IN_FIELD) (parse_add_char i r)
  | EAT_CRNL =>
      match i with
      | EOL => Some (set_state START_RECORD r)
      | Ch _ => if is_nl i then Some r else None
      end
  end.

(** Iterating [io.StringIO(text)]: lines end after each line feed, which
    stays part of the line; carriage returns do not end a line. *)
Fixpoint lines_from (cur : list ascii) (l : list ascii) : list (list ascii) :=
  match l with
  | [] => match cur with [] => [] | _ => [rev cur] end
  | c :: l' =>
      if Ascii.eqb c "010" then rev (c :: cur) :: lines_from [] l'
      else lines_from (c :: cur) l'
  end.

Definition lines (text : string) : list (list ascii) := lines_from [] (chars text).

(** The characters of one line, then the end-of-line marker. *)
Fixpoint process_line (line : list ascii) (r : reader) : option reader :=
  match line with
  | [] => parse_process_char EOL r
  | c :: line' =>
      match parse_process_char (Ch c) r with
      | Some r' => process_line line' r'
      | None => None
      end
  end.

(** A row as the [for] loop sees it. *)
Definition row := list string.

(** What iterating the reader produces: the rows it yields, in order, and
    whether the iteration ends with a [csv.Error] (after those rows) rather
    than by exhausting the input.  [Reader_iternext] reads lines until the
    automaton is back in [START_RECORD]; at the end of the input an open
    record is still yielded. *)
Fixpoint read_rows (ls : list (list ascii)) (r : reader) : list row * bool :=
  match ls with
  | [] =>
      if negb (field_len r =? 0)%N || parser_state_eqb (state r) IN_QUOTED_FIELD
      then ([rev (fields (parse_save_field r))], false)
      else ([], false)
  | l :: ls' =>
      match process_line l r with
      | None => ([], true)
      | Some r' =>
          if parser_state_eqb (state r') START_RECORD
          then let (rs, e) := read_rows ls' parse_reset in (rev (fields r') :: rs, e)
          else read_rows ls' r'
      end
  end.

Definition reader_rows (text : string) : list row * bool :=
  read_rows (lines text) parse_reset.

End Csv.

(** ** [re.search] for the pattern of the numeric fallback *)
Module Re.
Import PyStr.

(** The fragment of regular expressions the scripts use: literal
    characters, a greedy bounded repetition of one literal, and one
    capturing group. *)
Inductive item :=
| Lit (c : ascii)
| Rep (c : ascii) (lo hi : nat)
| GroupOpen
| GroupClose.

(** Exactly [n] copies of [c] at the head of [s]; the rest of [s]. *)
Fixpoint take_rep (c : ascii) (n : nat) (s : list ascii) : option (list ascii) :=
  match n with
  | O => Some s
  | S n' =>
      match s with
      | d :: s' => if Ascii.eqb d c then take_rep c n' s' else None
      | [] => None
      end
  end.

(** Match the pattern at the head of [s], backtracking over the
    repetitions, longest first.  [open] holds the characters of the group
    being captured (last first) while inside it, [grp] the finished
    group.  The result is the captured group of the match. *)
Fixpoint match_here (p : list item) (s : list ascii)
    (open : option (list ascii)) (grp : option string) : option (option string) :=
  match p with
  | [] => Some grp
  | Lit c :: p' =>
      match s with
      | d :: s' =>
          if Ascii.eqb d c then match_here p' s' (option_map (cons d) open) grp
          else None
      | [] => None
      end
  | Rep c lo hi :: p' =>
      (fix try (extra : nat) : option (option string) :=
         let here :=
           match take_rep c (lo + extra) s with
           | Some s' =>
               match_here p' s' (option_map (app (repeat c (lo + extra))) open) grp
           | None => None
           end in
         match here, extra with
         | Some r, _ => Some r
         | None, O => None
         | None, S extra' => try extra'
         end) (hi - lo)
  | GroupOpen :: p' => match_here p' s (Some []) grp
  | GroupClose :: p' => match_here p' s None (option_map (fun l => str (rev l)) open)
  end.

(** [re.search(p, s)]: the leftmost position where the pattern matches;
    the value is [m.group(1)]. *)
Fixpoint search (p : list item) (s : list ascii) : option (option string) :=
  match match_here p s None None with
  | Some g => Some g
  | None =>
      match s with
      | [] => None
      | _ :: s' => search p s'
      end
  end.

Definition backslash : ascii := "092".

(** The compiled form of the raw string the script passes to [re.search]:
    each doubled backslash of the raw string is an escaped, hence literal,
    backslash, so the letters after them are literal letters and the
    repetition applies to the letter d. *)
Definition score_pattern : list item :=
  [Lit backslash; Lit "b"; GroupOpen; Lit backslash; Rep "d" 1 2; GroupClose;
   Lit backslash; Lit "b"].

End Re.

(** ** The response parsers *)
Module Parser.
Import PyStr Csv.

(** A suggested score and an extended description; the score is [None]
    where the scripts return the empty string for it. *)
Definition result : Type := option Z * string.

Definition fence : string := "```".

(** The characters removed around a fenced reply: backtick, line feed,
    space. *)
Definition fence_chars : string := String "`" (String "010" (String " " "")).

(** [if text.startswith(fence) and text.endswith(fence): text = text.strip(...)] *)
Definition strip_fences (text : string) : string :=
  if startswith fence text && endswith fence text
  then strip_chars fence_chars text else text.

(** [row[0].lower().strip().startswith("suggested")] *)
Definition is_header (f0 : string) : bool :=
  startswith "suggested" (strip (lower f0)).

(** The [for row in reader] loop of the two-field parser: [Some] is the
    value it returns, [None] that the loop ran out of rows. *)
Fixpoint scan_rows (rows : list row) : option result :=
  match rows with
  | [] => None
  | r :: rest =>
      match r with
      | [] => scan_rows rest
      | f0 :: fs =>
          if is_header f0 then scan_rows rest
          else if Nat.leb 2 (length r) then
            let score_raw := strip f0 in
            let desc := strip (nth 1 r "") in
            let desc := if Nat.ltb 2 (length r) then join "," (map strip fs) else desc in
            Some (py_int score_raw, desc)
          else scan_rows rest
      end
  end.

(** The rows the loop passes over before it looks at the number of
    fields: empty rows and header rows. *)
Definition skipped_row (r : row) : bool :=
  match r with
  | [] => true
  | f0 :: _ => is_header f0
  end.

(** The structured pass: the loop over the reader's rows.  A [csv.Error]
    raised after the rows already seen is swallowed by the surrounding
    [except Exception: pass], which leaves the loop the same way as running
    out of rows does. *)
Definition parse_csv (text : string) : option result :=
  scan_rows (fst (reader_rows text)).

(** The split on the first comma, and the last resort. *)
Definition parse_fallback (text : string) : result :=
  match split_first "," text with
  | Some (first, rest) => (py_int (strip first), strip rest)
  | None => (None, text)
  end.

(** The two-field parser of [get_extended_description], from the fence
    stripping to the final fallback. *)
Definition parse_reply (text : string) : result :=
  let text := strip_fences text in
  match parse_csv text with
  | Some r => r
  | None => parse_fallback text
  end.

(** The loop of the single-field numeric parser: [Some s] is the value
    returned from inside the loop, [None] that the loop ran out of rows. *)
Fixpoint scan_score_rows (rows : list row) : option (option Z) :=
  match rows with
  | [] => None
  | r :: rest =>
      match r with
      | [] => scan_score_rows rest
      | f0 :: _ =>
          if is_header f0 then scan_score_rows rest
          else match py_int (strip f0) with
               | Some score =>
                   if (1 <=? score)%Z && (score <=? 20)%Z then Some (Some score)
                   else Some None
               | None => scan_score_rows rest
               end
      end
  end.


(** The regular-expression fallback of the single-field numeric parser. *)
Definition score_fallback (text : string) : option Z :=
  match Re.search Re.score_pattern (chars text) with
  | Some (Some g) =>
      match py_int g with
      | Some score => if (1 <=? score)%Z && (score <=? 20)%Z then Some score else None
      | None => None
      end
  | _ => None
  end.

(** The parser of [get_suggested_score], applied to the reply text. *)
Definition parse_score (text : string) : option Z :=
  let text := strip_fences text in
  match scan_score_rows (fst (reader_rows text)) with
  | Some s => s
  | None => score_fallback text
  end.

End Parser.

(** ** The request executor of the asynchronous script *)
Module Executor.
Import PyStr Parser.

(** What one pass through [session.post] and [resp.text()] under the
    timeout gives: an exception [e] (a connection error, the timeout, a
    decoding error), of which only [str(e)] matters, or a status and the
    text of the body. *)
Inductive http_outcome :=
| Raises (msg : string)
| Responds (status : Z) (body : string).

(** The [try] body of one attempt: the value it returns, or the message of
    the exception that reaches the [except Exception as e] clause. *)
Definition attempt_once (o : http_outcome) : result + string :=
  match o with
  | Raises msg => inr msg
  | Responds status body =>
      if negb (status =? 200)%Z
      then inr ("Ollama error " ++ py_str_int status ++ ": " ++ body)%string
      else inl (parse_reply body)
  end.

(** The value returned after the last failed attempt. *)
Definition failed (cause : string) : result :=
  (None, ("ERROR after retries: " ++ cause)%string).

(** What the executor does to the outside world. *)
Inductive event :=
| Post (attempt : nat)
| Sleep (seconds : nat).

Definition is_post (e : event) : bool :=
  match e with
  | Post _ => true
  | Sleep _ => false
  end.

(** The loop [for attempt in range(3)], given the outcome each attempt
    will have.  The value is [None] when the loop runs out of attempts
    without a [return] (Python would then return [None]). *)
Fixpoint run_attempts (env : nat -> http_outcome) (attempts : list nat)
  : list event * option result :=
  match attempts with
  | [] => ([], None)
  | attempt :: rest =>
      match attempt_once (env attempt) with
      | inl r => ([Post attempt], Some r)
      | inr e =>
          if Nat.eqb attempt 2 then ([Post attempt], Some (failed e))
          else let (evs, r) := run_attempts env rest in
               (Post attempt :: Sleep (1 + attempt) :: evs, r)
      end
  end.

(** [get_extended_description], once it holds the semaphore. *)
Definition get_extended_description (env : nat -> http_outcome)
  : list event * option result :=
  run_attempts env (seq 0 3).

End Executor.

(** ** The synchronous script ([add-extended-descriptions.py]) *)
Module Sync.
Import PyStr Parser.

(** One call of [requests.post], [raise_for_status] and
    [r.json().get("response", "")]: an exception, or the text of the
    [response] field of the decoded body. *)
Inductive http_outcome :=
| Raises (msg : string)
| Responds (response_field : string).

(** [get_extended_description]: the parsed pair, or the message of the
    exception it lets through to [process_csv]. *)
Definition get_extended_description (o : http_outcome) : result + string :=
  match o with
  | Raises msg => inr msg
  | Responds response_field => inl (parse_reply (strip response_field))
  end.

(** [get_suggested_score] of the two-pass script. *)
Definition get_suggested_score (o : http_outcome) : option Z + string :=
  match o with
  | Raises msg => inr msg
  | Responds response_field => inl (parse_score (strip response_field))
  end.

End Sync.

(** ** The table ([pandas.DataFrame]), column by column *)
Module Table.

Inductive cell :=
| Text (s : string)
| Int (n : Z)
| NaN.

(** The length of the index and the named columns, in order.  Every frame
    that [read_csv] builds is [well_formed]. *)
Record DataFrame := {
  index_len : nat;
  cols : list (string * list cell)
}.

Definition well_formed (df : DataFrame) : Prop :=
  Forall (fun c => length (snd c) = index_len df) (cols df).

(** [df.columns] *)
Definition columns (df : DataFrame) : list string := map fst (cols df).

Definition has_column (df : DataFrame) (name : string) : bool :=
  existsb (String.eqb name) (columns df).

(** [df[name]] *)
Fixpoint lookup_col (name : string) (cs : list (string * list cell))
  : option (list cell) :=
  match cs with
  | [] => None
  | (n, vs) :: cs' => if String.eqb name n then Some vs else lookup_col name cs'
  end.

Fixpoint replace_col (name : string) (vals : list cell)
    (cs : list (string * list cell)) : list (string * list cell) :=
  match cs with
  | [] => [(name, vals)]
  | (n, vs) :: cs' =>
      if String.eqb name n then (n, vals) :: cs'
      else (n, vs) :: replace_col name vals cs'
  end.

(** [df[name] = vals] for a list [vals]: the column is replaced where it
    stands or added as the last one; [None] is the [ValueError] pandas
    raises when the list is not as long as the index. *)
Definition set_column (name : string) (vals : list cell) (df : DataFrame)
  : option DataFrame :=
  if Nat.eqb (length vals) (index_len df)
  then Some {| index_len := index_len df; cols := replace_col name vals (cols df) |}
  else None.

(** [df[names]]: the named columns in the order asked for; [None] is the
    [KeyError] for a name that is not a column. *)
Definition select (names : list string) (df : DataFrame) : option DataFrame :=
  match mapM (fun n => pair n <$> lookup_col n (cols df)) names with
  | Some cs => Some {| index_len := index_len df; cols := cs |}
  | None => None
  end.

End Table.

(** ** The orchestrator: validation, the gated tasks, gather and merge *)
Module Orchestrator.
Import PyStr Parser Executor Table.

Definition MAX_CONCURRENT_REQUESTS : nat := 2.

Definition required_cols : list string :=
  ["privilege_type"; "privilege_name"; "privilege_description"; "privilege_score"].

Definition desired_cols : list string :=
  ["privilege_type"; "privilege_name"; "privilege_description"; "privilege_score";
   "suggested_privilege_score"; "extended_description"].

(** [required_cols - set(df.columns)]; empty exactly when
    [required_cols.issubset(df.columns)]. *)
Definition missing_required (df : DataFrame) : list string :=
  List.filter (fun c => negb (has_column df c)) required_cols.

(** [[c for c in desired_cols if c not in df.columns]] *)
Definition missing_desired (df : DataFrame) : list string :=
  List.filter (fun c => negb (has_column df c)) desired_cols.

(** How a run ends. *)
Inductive outcome :=
| InvalidInput (missing : list string)   (* ValueError: CSV missing required columns *)
| Exit                                   (* sys.exit(1) after a failed health check *)
| LengthMismatch                         (* ValueError of a column assignment *)
| InvalidOutput (missing : list string)  (* ValueError: missing expected columns *)
| KeyError
| Written (out : DataFrame)              (* df.to_csv(output_csv) *)
| Unfinished.                            (* the schedule stopped with tasks pending *)

(** The requests that leave the process. *)
Inductive net_event :=
| HealthCheck
| Request (row attempt : nat).

(** Where one task of [get_extended_description] stands: before
    [async with semaphore], inside the request of an attempt, in the
    backoff sleep after a failed attempt, or returned.  A returned value
    [None] is Python's [None]. *)
Inductive task :=
| Waiting
| Posting (attempt : nat)
| Sleeping (attempt : nat)
| Done (r : option result).

(** The event loop's state: the semaphore's counter, the tasks by row
    position, the pairs [(i, result)] in the order the tasks completed
    (what [tqdm_asyncio.gather] collects from [as_completed]), and the
    requests sent so far. *)
Record system := {
  sem : nat;
  tasks : list task;
  completed : list (nat * option result);
  net : list net_event
}.

Definition init (n m : nat) : system :=
  {| sem := n; tasks := replicate m Waiting; completed := []; net := [] |}.

(** Task [i] returns [r]: its slot is released and the pair is collected. *)
Definition finish (i : nat) (r : option result) (s : system) : system :=
  {| sem := S (sem s); tasks := <[i := Done r]> (tasks s);
     completed := completed s ++ [(i, r)]; net := net s |}.

Definition move (i : nat) (t : task) (s : system) : system :=
  {| sem := sem s; tasks := <[i := t]> (tasks s);
     completed := completed s; net := net s |}.

Definition send (i attempt : nat) (s : system) : system :=
  {| sem := sem s; tasks := tasks s; completed := completed s;
     net := net s ++ [Request i attempt] |}.

(** One resumption of task [i] by the event loop, up to its next
    suspension point; [None] when the task cannot run (it waits for a
    slot, has returned, or does not exist).  [env i k] is the outcome of
    attempt [k] of row [i]. *)
Definition step (env : nat -> nat -> http_outcome) (i : nat) (s : system)
  : option system :=
  match tasks s !! i with
  | Some Waiting =>
      match sem s with
      | S n => Some (send i 0 (move i (Posting 0)
                 {| sem := n; tasks := tasks s; completed := completed s; net := net s |}))
      | O => None
      end
  | Some (Posting attempt) =>
      match attempt_once (env i attempt) with
      | inl r => Some (finish i (Some r) s)
      | inr e =>
          if Nat.eqb attempt 2 then Some (finish i (Some (failed e)) s)
          else Some (move i (Sleeping attempt) s)
      end
  | Some (Sleeping attempt) =>
      if Nat.ltb (S attempt) 3
      then Some (send i (S attempt) (move i (Posting (S attempt)) s))
      else Some (finish i None s)
  | Some (Done _) => None
  | None => None
  end.

(** The event loop under a schedule: the tasks it resumes, in order; a
    task that cannot run is passed over. *)
Fixpoint run (env : nat -> nat -> http_outcome) (sched : list nat) (s : system)
  : system :=
  match sched with
  | [] => s
  | i :: sched' =>
      match step env i s with
      | Some s' => run env sched' s'
      | None => run env sched' s
      end
  end.

(** [n] resumptions lead from one state to another. *)
Inductive steps (env : nat -> nat -> http_outcome) : nat -> system -> system -> Prop :=
| steps_refl s : steps env 0 s s
| steps_step n i s s' s'' :
    step env i s = Some s' -> steps env n s' s'' -> steps env (S n) s s''.

Definition holds_slot (t : task) : bool :=
  match t with
  | Posting _ | Sleeping _ => true
  | _ => false
  end.

(** The number of requests in flight: the tasks inside [async with semaphore]. *)
Definition in_flight (s : system) : nat :=
  length (List.filter holds_slot (tasks s)).

Definition is_done (t : task) : bool :=
  match t with
  | Done _ => true
  | _ => false
  end.

Definition all_done (s : system) : bool := forallb is_done (tasks s).

Definition index_le (a b : nat * option result) : Prop := fst a <= fst b.

#[global] Instance index_le_dec a b : Decision (index_le a b) :=
  le_dec (fst a) (fst b).

(** [tqdm_asyncio.gather]: the collected pairs sorted by task index,
    then the results alone. *)
Definition gather (s : system) : list (option result) :=
  map snd (merge_sort index_le (completed s)).

Definition score_cell (score : option Z) : cell :=
  match score with
  | Some n => Int n
  | None => Text ""
  end.

(** The loop that splits the results: a pair gives its two parts,
    anything else an empty score and its [str]. *)
Definition split_result (r : option result) : cell * cell :=
  match r with
  | Some (score, desc) => (score_cell score, Text desc)
  | None => (Text "", Text "None")
  end.

(** The two column assignments, the check of the column set, the
    reordering and the write. *)
Definition merge (df : DataFrame) (suggested_scores extended_descriptions : list cell)
  : outcome :=
  match set_column "suggested_privilege_score" suggested_scores df with
  | None => LengthMismatch
  | Some df1 =>
      match set_column "extended_description" extended_descriptions df1 with
      | None => LengthMismatch
      | Some df2 =>
          match missing_desired df2 with
          | [] =>
              match select desired_cols df2 with
              | Some out => Written out
              | None => KeyError
              end
          | missing => InvalidOutput missing
          end
      end
  end.

(** [process_csv_async] on the table read from the input file.
    [health_ok] says whether the probe of [test_model] gets an answer
    (otherwise [test_model] exits), [env] gives the outcome of each attempt
    of each row and [sched] is the order in which the event loop resumes
    the tasks.  The value is the requests sent, in order, and how the run
    ends. *)
Definition process_csv_async (df : DataFrame) (health_ok : bool)
    (env : nat -> nat -> http_outcome) (sched : list nat)
  : list net_event * outcome :=
  match missing_required df with
  | [] =>
      if health_ok then
        let s := run env sched (init MAX_CONCURRENT_REQUESTS (index_len df)) in
        if all_done s then
          let results := map split_result (gather s) in
          (HealthCheck :: net s, merge df (map fst results) (map snd results))
        else (HealthCheck :: net s, Unfinished)
      else ([HealthCheck], Exit)
  | missing => ([], InvalidInput missing)
  end.

(** [process_csv] of the synchronous script: the health check comes
    first, then the table is read and validated, then the rows are
    enriched one after the other. *)
Definition process_csv (df : DataFrame) (health_ok : bool)
    (env : nat -> Sync.http_outcome) : list net_event * outcome :=
  if health_ok then
    match missing_required df with
    | [] =>
        let rows := seq 0 (index_len df) in
        let results :=
          map (fun i => match Sync.get_extended_description (env i) with
                        | inl r => r
                        | inr e => (None, ("ERROR: " ++ e)%string)
                        end) rows in
        (HealthCheck :: map (fun i => Request i 0) rows,
         merge df (map (fun r => score_cell (fst r)) results)
                  (map (fun r => Text (snd r)) results))
    | missing => ([HealthCheck], InvalidInput missing)
    end
  else ([HealthCheck], Exit).

End Orchestrator.

(** ** Sample inputs *)
Module Samples.
Import Executor Table Orchestrator.

Definition nl : string := String "010" "".
Definition dq : string := String "034" "".

(** The header the prompt asks for. *)
Definition header_line : string := "suggested_privilege_score,extended_description".

(** A JSON body whose [response] field holds a well-formed reply. *)
Definition json_body : string :=
  "{" ++ dq ++ "response" ++ dq ++ ":" ++ dq ++ "7,Reads mail" ++ dq ++ "}".

(** Attempts 0 and 1 time out, attempt 2 is answered. *)
Definition third_time_lucky (k : nat) : http_outcome :=
  match k with
  | 2 => Responds 200 "7,Reads mail"
  | _ => Raises ""
  end.

(** A table without the description and score columns. *)
Definition df_missing : DataFrame :=
  {| index_len := 1;
     cols := [("privilege_type", [Text "scp"]); ("privilege_name", [Text "User.Read"])] |}.

(** A table of five rows, with its columns in another order than the
    output's. *)
Definition df_five : DataFrame :=
  {| index_len := 5;
     cols := [("privilege_name",
               [Text "User.Read"; Text "Mail.Send"; Text "Files.Read.All";
                Text "Directory.ReadWrite.All"; Text "Calendars.Read"]);
              ("privilege_score", [Int 2; Int 8; Int 9; Int 19; Int 3]);
              ("privilege_type", [Text "scp"; Text "scp"; Text "roles"; Text "roles"; Text "scp"]);
              ("privilege_description", [NaN; Text "Send mail"; NaN; NaN; NaN])] |}.

(** Row 0 is answered at its third attempt, row 1 at once, the other rows
    never. *)
Definition env_mixed (i k : nat) : http_outcome :=
  match i, k with
  | 0, 2 => Responds 200 "7,Reads the profile"
  | 1, _ => Responds 200 "12,Sends mail"
  | _, _ => Responds 500 "boom"
  end.

(** Every request fails. *)
Definition env_down (i k : nat) : http_outcome := Raises "connection refused".

(** Round robin over [m] tasks, [n] times. *)
Definition round_robin (m n : nat) : list (list nat) := replicate n (seq 0 m).

End Samples.

(** ** Invariants of the event loop *)
Module Invariants.
Import Parser Executor Orchestrator.

(** The value the executor returns for a row, and the value the loop
    returns when it goes on from attempt [k]. *)
Definition final (e : nat -> http_outcome) : option result :=
  snd (get_extended_description e).

Definition resume (e : nat -> http_outcome) (k : nat) : option result :=
  snd (run_attempts e (seq k (3 - k))).

(** A task is where the sequential executor would be. *)
Definition task_inv (e : nat -> http_outcome) (t : task) : Prop :=
  match t with
  | Waiting => True
  | Posting k => k <= 2 /\ resume e k = final e
  | Sleeping k => k <= 1 /\ resume e (S k) = final e
  | Done r => r = final e
  end.

(** The resumptions a task has left, at most. *)
Definition weight (t : task) : nat :=
  match t with
  | Waiting => 6
  | Posting k => 5 - 2 * k
  | Sleeping k => 4 - 2 * k
  | Done _ => 0
  end.

Definition slots (t : task) : nat := if holds_slot t then 1 else 0.

Definition total (f : task -> nat) (ts : list task) : nat := sum_list (map f ts).

(** The pairs of the returned tasks, by position, from position [j]. *)
Fixpoint done_from (j : nat) (ts : list task) : list (nat * option result) :=
  match ts with
  | [] => []
  | Done r :: ts' => (j, r) :: done_from (S j) ts'
  | _ :: ts' => done_from (S j) ts'
  end.

Record inv (env : nat -> nat -> http_outcome) (n m : nat) (s : system) : Prop := {
  inv_len : length (tasks s) = m;
  inv_sem : sem s + in_flight s = n;
  inv_tasks : forall i t, tasks s !! i = Some t -> task_inv (env i) t;
  inv_completed : completed s ≡ₚ done_from 0 (tasks s)
}.

(** Every round of a fair schedule resumes every task. *)
Definition fair (m : nat) (rounds : list (list nat)) : Prop :=
  forallb (fun round => forallb (fun i => existsb (Nat.eqb i) round) (seq 0 m)) rounds
  = true.

(** Every one of the [m] tasks has returned a pair. *)
Definition completed_all (m : nat) (s : system) : Prop :=
  length (tasks s) = m /\
  forall i, i < m -> exists r, tasks s !! i = Some (Done (Some r)).

End Invariants.

(** ** The reply format the prompts ask for *)
Module ReplyFormat.
Import PyStr Csv.

(** Double quotes doubled, as the prompt tells the model to escape them. *)
Fixpoint escape_quotes (l : list ascii) : list ascii :=
  match l with
  | [] => []
  | c :: l' =>
      if Ascii.eqb c quotechar then c :: c :: escape_quotes l'
      else c :: escape_quotes l'
  end.

(** A description enclosed in double quotes, its quotes doubled. *)
Definition csv_quote (d : string) : string :=
  str (quotechar :: escape_quotes (chars d) ++ [quotechar]).

(** The characters of part of a line, without the end-of-line marker. *)
Fixpoint process_chars (l : list ascii) (r : reader) : option reader :=
  match l with
  | [] => Some r
  | c :: l' =>
      match parse_process_char (Ch c) r with
      | Some r' => process_chars l' r'
      | None => None
      end
  end.

Definition not_char (d : ascii) (c : ascii) : bool := negb (Ascii.eqb c d).

(** At the start of a line the record is empty. *)
Definition line_start (r : reader) : Prop :=
  fields r = [] /\ (state r = START_RECORD \/ state r = IN_QUOTED_FIELD).

(** Inside a line without a comma at most one field has been saved. *)
Definition single (r : reader) : Prop :=
  match state r with
  | START_FIELD => False
  | EAT_CRNL => length (fields r) <= 1
  | _ => fields r = []
  end.


(** The reply wrapped in a fenced block. *)
Definition fenced (body : string) : string :=
  ("```" ++ String "010" body ++ String "010" "```")%string.

End ReplyFormat.

(** ** The two-pass script ([add-extended-descriptions_two-pass.py]) *)
Module TwoPass.
Import PyStr Csv Parser Table Orchestrator.

(** [row[0].lower().strip().startswith("extended")] *)
Definition is_header (f0 : string) : bool :=
  startswith "extended" (strip (lower f0)).

(** The loop of the description parser: the first row that is neither
    empty nor a header gives its fields, each trimmed, rejoined with
    commas. *)
Fixpoint scan_desc_rows (rows : list row) : option string :=
  match rows with
  | [] => None
  | r :: rest =>
      match r with
      | [] => scan_desc_rows rest
      | f0 :: _ =>
          if is_header f0 then scan_desc_rows rest
          else Some (join "," (map strip r))
      end
  end.

(** The parser of [get_extended_description], applied to the reply text. *)
Definition parse_description (text : string) : string :=
  let text := strip_fences text in
  match scan_desc_rows (fst (reader_rows text)) with
  | Some desc => desc
  | None => text
  end.

(** [get_extended_description]: the description, or the message of the
    exception it lets through. *)
Definition get_extended_description (o : Sync.http_outcome) : string + string :=
  match o with
  | Sync.Raises msg => inr msg
  | Sync.Responds response_field => inl (parse_description (strip response_field))
  end.

(** The two requests of a row. *)
Inductive request :=
| Probe
| Describe (row : nat)
| Score (row : nat).

Definition describe_row (o : Sync.http_outcome) : string :=
  match get_extended_description o with
  | inl desc => desc
  | inr e => ("ERROR: " ++ e)%string
  end.

Definition score_row (o : Sync.http_outcome) : option Z :=
  match Sync.get_suggested_score o with
  | inl score => score
  | inr _ => None
  end.

(** [process_csv]: health check, validation, then for every row the
    description request followed by the score request, each with its own
    [try]; then the merge. *)
Definition process_csv (df : DataFrame) (health_ok : bool)
    (env_desc env_score : nat -> Sync.http_outcome) : list request * outcome :=
  if health_ok then
    match missing_required df with
    | [] =>
        let rows := seq 0 (index_len df) in
        (Probe :: flat_map (fun i => [Describe i; Score i]) rows,
         merge df (map (fun i => score_cell (score_row (env_score i))) rows)
                  (map (fun i => Text (describe_row (env_desc i))) rows))
    | missing => ([Probe], InvalidInput missing)
    end
  else ([Probe], Exit).

End TwoPass.

(** ** The clean-up script ([fix_csv_formatting.py]) *)
Module Formatting.
Import PyStr.

Definition is_crlf (c : ascii) : bool := Ascii.eqb c "013" || Ascii.eqb c "010".

(** What [re.sub] puts for a maximal run of matching characters (held
    last character first): one space when the run is long enough for the
    pattern, the run itself otherwise. *)
Definition flush (min : nat) (run : list ascii) : list ascii :=
  match run with
  | [] => []
  | _ => if Nat.leb min (length run) then [" "%char] else rev run
  end.

(** [re.sub] of a pattern "at least [min] characters of the class [p]" by
    one space: the text is cut into its maximal runs of the class. *)
Fixpoint sub_runs (p : ascii -> bool) (min : nat) (run l : list ascii) : list ascii :=
  match l with
  | [] => flush min run
  | c :: l' =>
      if p c then sub_runs p min (c :: run) l'
      else flush min run ++ c :: sub_runs p min [] l'
  end.

(** No two neighbouring characters are both white space. *)
Fixpoint no_adjacent_space (l : list ascii) : bool :=
  match l with
  | a :: (b :: _) as t => negb (is_space a && is_space b) && no_adjacent_space t
  | _ => true
  end.

Definition starts_visible (l : list ascii) : bool :=
  match l with
  | [] => true
  | c :: _ => negb (is_space c)
  end.

(** Neither the first nor the last character is white space. *)
Definition trimmed (l : list ascii) : bool :=
  starts_visible l && starts_visible (rev l).

(** The characters that are not white space, in order. *)
Definition visible (l : list ascii) : list ascii :=
  List.filter (fun c => negb (is_space c)) l.

(** A value as [clean_text] leaves it: no carriage return or line feed,
    no two neighbouring white-space characters, trimmed. *)
Definition clean (l : list ascii) : bool :=
  forallb (fun c => negb (is_crlf c)) l && no_adjacent_space l && trimmed l.

(** [clean_text] on a [str] value. *)
Definition clean_text (value : string) : string :=
  let value := sub_runs is_crlf 1 [] (chars value) in
  let value := sub_runs is_space 2 [] value in
  strip (str value).

End Formatting.

(** ** The scraper ([ms-graph-api_privilege-scraper.py]) *)
Module Scraper.
Import PyStr.

(** [pat in s] *)
Fixpoint contains (pat s : string) : bool :=
  String.prefix pat s ||
  match s with
  | EmptyString => false
  | String _ s' => contains pat s'
  end.

Definition guess_privilege_score (name : string) : Z :=
  let name_lower := lower name in
  if contains "read" name_lower then 5
  else if contains "readwrite" name_lower || contains "update" name_lower then 10
  else if contains "delete" name_lower || contains "write" name_lower then 15
  else if contains "all" name_lower || contains "full" name_lower then 20
  else 8.

(** A row of the scraped table. *)
Record permission := {
  privilege_type : string;
  privilege_name : string;
  privilege_description : string;
  privilege_score : Z
}.

(** [d[k] = v] on a [dict]: an existing key keeps its place and takes the
    new value, a new key goes last. *)
Fixpoint dict_set (k : string) (v : permission) (d : list (string * permission))
  : list (string * permission) :=
  match d with
  | [] => [(k, v)]
  | (k', v') :: d' =>
      if String.eqb k k' then (k', v) :: d'
      else (k', v') :: dict_set k v d'
  end.

(** [{p["privilege_name"]: p for p in all_permissions}] *)
Definition unique (all_permissions : list permission) : list (string * permission) :=
  fold_left (fun d p => dict_set (privilege_name p) p d) all_permissions [].

(** [d.get(k)] *)
Fixpoint dict_get (k : string) (d : list (string * permission)) : option permission :=
  match d with
  | [] => None
  | (k', v) :: d' => if String.eqb k k' then Some v else dict_get k d'
  end.

(** The last record of the list that carries the name [k]. *)
Definition last_named (k : string) (l : list permission) : option permission :=
  List.find (fun p => String.eqb k (privilege_name p)) (rev l).

(** [list(unique.values())] *)
Definition final_list (all_permissions : list permission) : list permission :=
  map snd (unique all_permissions).

End Scraper.

(** ** More sample inputs *)
Module MoreSamples.
Import Table.

(** A full table of two rows. *)
Definition df_two : DataFrame :=
  {| index_len := 2;
     cols := [("privilege_type", [Text "scp"; Text "roles"]);
              ("privilege_name", [Text "User.Read"; Text "Mail.Send"]);
              ("privilege_description", [NaN; NaN]);
              ("privilege_score", [Int 5; Int 8])] |}.

(** A description with a comma, a line break, quotes and a trailing space. *)
Definition sample_description : string :=
  ("Allows read access, broadly" ++ String "010" "to " ++ String "034" "all" ++
   String "034" " mail ")%string.

(** Scraped records with a repeated name. *)
Definition scraped : list Scraper.permission :=
  [Scraper.Build_permission "scp" "User.Read" "first" 5;
   Scraper.Build_permission "roles" "Mail.Send" "" 8;
   Scraper.Build_permission "roles" "User.Read" "second" 5].

End MoreSamples.

(** ** The requests of one row *)
Module Trace.
Import Executor Orchestrator.

(** The attempt numbers of the requests the executor sends. *)
Definition attempts_of (evs : list event) : list nat :=
  flat_map (fun e => match e with Post a => [a] | Sleep _ => [] end) evs.

(** The attempt numbers of the requests sent for row [i], in order. *)
Definition row_requests (i : nat) (evs : list net_event) : list nat :=
  flat_map (fun e => match e with
                     | Request j a => if Nat.eqb j i then [a] else []
                     | HealthCheck => []
                     end) evs.

(** The attempts of the executor when attempts [0..k-1] have failed. *)
Definition posts_from (e : nat -> http_outcome) (k : nat) : list nat :=
  seq 0 k ++ attempts_of (fst (run_attempts e (seq k (3 - k)))).

(** What has been sent for a row, by the state of its task. *)
Definition sent (e : nat -> http_outcome) (t : task) (l : list nat) : Prop :=
  match t with
  | Waiting => l = []
  | Posting k => k <= 2 /\ l = seq 0 (S k) /\ posts_from e k = posts_from e 0
  | Sleeping k => k <= 1 /\ l = seq 0 (S k) /\ posts_from e (S k) = posts_from e 0
  | Done _ => l = posts_from e 0
  end.

Definition trace_inv (env : nat -> nat -> http_outcome) (s : system) : Prop :=
  forall i,
    match tasks s !! i with
    | Some t => sent (env i) t (row_requests i (net s))
    | None => row_requests i (net s) = []
    end.

End Trace.

(** * Properties *)

(** ** The parsers *)
Module ParserSpec.
Import PyStr Csv Parser Samples.

Lemma scan_rows_skipped (skipped rest : list row) :
  Forall (fun r => skipped_row r = true) skipped ->
  scan_rows (skipped ++ rest) = scan_rows rest.
Proof.
  induction 1 as [|r skipped Hr _ IH]; [reflexivity|].
  destruct r as [|f0 fs]; simpl in *; [exact IH|].
  rewrite Hr. exact IH.
Qed.

Lemma scan_rows_data_row (f0 f1 : string) (more : list string) (rest : list row) :
  is_header f0 = false ->
  scan_rows ((f0 :: f1 :: more) :: rest) =
  Some (py_int (strip f0),
        match more with
        | [] => strip f1
        | _ => join "," (map strip (f1 :: more))
        end).
Proof.
  intros Hh. cbn [scan_rows]. rewrite Hh.
  destruct more; reflexivity.
Qed.


(** The group the pattern captures starts with a backslash, so it is
    never the text of an integer. *)
Lemma match_here_score_pattern (s : list ascii) (g : string) :
  Re.match_here Re.score_pattern s None None = Some (Some g) ->
  py_int g = None.
Proof.
  unfold Re.score_pattern. intros H.
  repeat (first
    [ discriminate H
    | match type of H with
      | context [match ?l with [] => _ | _ :: _ => _ end] =>
          is_var l; destruct l; cbn in H
      | context [if Ascii.eqb ?a ?b then _ else _] =>
          destruct (Ascii.eqb_spec a b); [subst|]; cbn in H
      end
    | progress cbn in H ]);
  inversion H; reflexivity.
Qed.

Lemma search_score_pattern (s : list ascii) (g : string) :
  Re.search Re.score_pattern s = Some (Some g) -> py_int g = None.
Proof.
  induction s as [|c s IH]; cbn [Re.search].
  - destruct (Re.match_here Re.score_pattern [] None None) eqn:E; [|discriminate].
    intros [= ->]. eapply match_here_score_pattern; eassumption.
  - destruct (Re.match_here Re.score_pattern (c :: s) None None) eqn:E; [|exact IH].
    intros [= ->]. eapply match_here_score_pattern; eassumption.
Qed.

Lemma score_fallback_none (text : string) : score_fallback text = None.
Proof.
  unfold score_fallback.
  destruct (Re.search Re.score_pattern (chars text)) as [[g|]|] eqn:E; try reflexivity.
  rewrite (search_score_pattern _ _ E). reflexivity.
Qed.

(** C10: a reply that is only the header line
    [suggested_privilege_score,extended_description] gives an absent
    score and the description [extended_description]: the reader yields
    the header as its single row, the loop skips it and finds no data, and
    the fallback splits the header text at its first comma.  The same holds
    in the synchronous script and for a whole attempt of the asynchronous
    executor. *)
Theorem header_only_reply :
  reader_rows header_line =
    ([["suggested_privilege_score"; "extended_description"]], false) /\
  parse_csv header_line = None /\
  split_first "," header_line =
    Some ("suggested_privilege_score", "extended_description") /\
  parse_reply header_line = (None, "extended_description") /\
  Sync.get_extended_description (Sync.Responds header_line) =
    inl (None, "extended_description") /\
  Executor.attempt_once (Executor.Responds 200 header_line) =
    inl (None, "extended_description").
Proof. repeat split; vm_compute; reflexivity. Qed.

(** C8, as stated, fails for a row of more than two fields: the fields
    1..end are not rejoined as they are, each is trimmed first, so the
    white space around an unescaped comma is lost.  The reply [7, a, b]
    has the fields [7], [ a] and [ b]; rejoined with the delimiter they
    give [ a, b], trimmed [a, b], and the parser returns [a,b].  The rows
    skipped are those whose first field starts with [suggested], not only
    with the whole header name: the row [suggested 5,x] is passed over. *)
Lemma rejoined_fields_are_trimmed :
  reader_rows "7, a, b" = ([["7"; " a"; " b"]], false) /\
  join "," [" a"; " b"] = " a, b" /\
  parse_reply "7, a, b" = (Some 7%Z, "a,b") /\
  snd (parse_reply "7, a, b") <> join "," [" a"; " b"] /\
  snd (parse_reply "7, a, b") <> strip (join "," [" a"; " b"]) /\
  parse_reply "7,Allows read, write access" = (Some 7%Z, "Allows read,write access") /\
  parse_reply ("suggested 5,x" ++ nl ++ "7,Reads mail") = (Some 7%Z, "Reads mail").
Proof.
  split; [vm_compute; reflexivity|].
  split; [vm_compute; reflexivity|].
  split; [vm_compute; reflexivity|].
  split; [vm_compute; discriminate|].
  split; [vm_compute; discriminate|].
  split; vm_compute; reflexivity.
Qed.

(** C8, amended: when the reader's rows for the reply (fences stripped)
    start with rows that are empty or whose first field, lowered and
    trimmed, starts with [suggested], and the first row after them has at
    least two fields, the two-field parser returns the integer of field 0
    (trimmed) and, for exactly two fields, field 1 trimmed; for more than
    two fields, fields 1..end, each trimmed, joined with commas.  When
    field 0 is not an integer the score is absent and the description is
    still the one of that row. *)
Theorem structured_first_data_row
    (text : string) (skipped : list row) (f0 f1 : string) (more : list string)
    (rest : list row) (err : bool) :
  reader_rows (strip_fences text) = (skipped ++ (f0 :: f1 :: more) :: rest, err) ->
  Forall (fun r => skipped_row r = true) skipped ->
  is_header f0 = false ->
  let desc := match more with
              | [] => strip f1
              | _ => join "," (map strip (f1 :: more))
              end in
  parse_reply text = (py_int (strip f0), desc) /\
  (py_int (strip f0) = None -> parse_reply text = (None, desc)).
Proof.
  intros Hrows Hskip Hhead desc.
  assert (E : parse_reply text = (py_int (strip f0), desc)).
  { unfold parse_reply, parse_csv. rewrite Hrows. cbn [fst].
    rewrite (scan_rows_skipped _ _ Hskip), (scan_rows_data_row _ _ _ _ Hhead).
    reflexivity. }
  split; [exact E|]. intros Hnone. rewrite E, Hnone. reflexivity.
Qed.

Lemma structured_first_data_row_witness :
  parse_reply (header_line ++ nl ++ "7, a, b") = (Some 7%Z, "a,b") /\
  parse_reply (header_line ++ nl ++ "n/a,Reads mail") = (None, "Reads mail").
Proof.
  split.
  - refine (proj1 (structured_first_data_row
             (header_line ++ nl ++ "7, a, b")
             [["suggested_privilege_score"; "extended_description"]]
             "7" " a" [" b"] [] false _ _ _));
      [reflexivity | repeat constructor | reflexivity].
  - refine (proj2 (structured_first_data_row
             (header_line ++ nl ++ "n/a,Reads mail")
             [["suggested_privilege_score"; "extended_description"]]
             "n/a" "Reads mail" [] [] false _ _ _) _);
      [reflexivity | repeat constructor | reflexivity | reflexivity].
Defined.




(** C7: the fallback of the single-field numeric parser never yields a
    score; on the reply [score: 7] the parser returns an absent score,
    although 7 is the first integer token of the text and lies in 1..20.
    The pattern only matches text that spells a backslash, the letter b, a
    backslash, one or two letters d, a backslash and the letter b, and the
    captured group is then not an integer. *)
Theorem numeric_fallback_never_yields :
  parse_score "score: 7" = None /\
  Re.search Re.score_pattern (chars "score: 7") = None /\
  (forall text, score_fallback text = None).
Proof.
  split; [vm_compute; reflexivity|].
  split; [vm_compute; reflexivity|].
  exact score_fallback_none.
Qed.

End ParserSpec.

(** ** The request executor *)
Module ExecutorSpec.
Import PyStr Parser Executor Samples.

Lemma attempt_once_success (o : http_outcome) (r : result) :
  attempt_once o = inl r ->
  exists body, o = Responds 200 body /\ r = parse_reply body.
Proof.
  destruct o as [msg|status body]; cbn; [discriminate|].
  destruct (Z.eqb_spec status 200) as [->|]; cbn; [|discriminate].
  intros [= <-]. eauto.
Qed.


Lemma run_attempts_failed (env : nat -> http_outcome) (a : nat) (rest : list nat) (e : string) :
  attempt_once (env a) = inr e -> a <> 2 ->
  run_attempts env (a :: rest) =
  (Post a :: Sleep (1 + a) :: fst (run_attempts env rest), snd (run_attempts env rest)).
Proof.
  intros E Ha. cbn [run_attempts]. rewrite E.
  destruct (Nat.eqb_spec a 2); [contradiction|].
  destruct (run_attempts env rest). reflexivity.
Qed.

(** The executor's value in terms of the three attempts. *)
Lemma get_extended_description_cases (env : nat -> http_outcome) :
  get_extended_description env =
  match attempt_once (env 0) with
  | inl r => ([Post 0], Some r)
  | inr _ =>
      match attempt_once (env 1) with
      | inl r => ([Post 0; Sleep 1; Post 1], Some r)
      | inr _ =>
          match attempt_once (env 2) with
          | inl r => ([Post 0; Sleep 1; Post 1; Sleep 2; Post 2], Some r)
          | inr e => ([Post 0; Sleep 1; Post 1; Sleep 2; Post 2], Some (failed e))
          end
      end
  end.
Proof.
  unfold get_extended_description. cbn.
  destruct (attempt_once (env 0)); [reflexivity|].
  destruct (attempt_once (env 1)); [reflexivity|].
  destruct (attempt_once (env 2)); reflexivity.
Qed.

(** The executor always has a value. *)
Lemma executor_value (env : nat -> http_outcome) :
  (exists r, snd (get_extended_description env) = Some r) /\
  length (List.filter is_post (fst (get_extended_description env))) <= 3.
Proof.
  rewrite get_extended_description_cases. split.
  - destruct (attempt_once (env 0)); [eauto|].
    destruct (attempt_once (env 1)); [eauto|].
    destruct (attempt_once (env 2)); eauto.
  - destruct (attempt_once (env 0)); [cbn; lia|].
    destruct (attempt_once (env 1)); [cbn; lia|].
    destruct (attempt_once (env 2)); cbn; lia.
Qed.

(** C2: whatever the attempts do, the executor returns a pair (it
    neither raises nor falls out of the loop without a value) after at most
    3 requests.  The first attempt that succeeds, the third included,
    decides: its parsed reply is the value.  When the three attempts fail
    the value is an absent score with [ERROR after retries: ] followed by
    the cause of the last failure.  After the failed attempt 0 the executor
    sleeps 1 second, after the failed attempt 1 it sleeps 2. *)
Theorem executor_retries (env : nat -> http_outcome) :
  (exists r, snd (get_extended_description env) = Some r) /\
  length (List.filter is_post (fst (get_extended_description env))) <= 3 /\
  (forall k r, attempt_once (env k) = inl r ->
     exists body, env k = Responds 200 body /\ r = parse_reply body) /\
  (forall r, attempt_once (env 0) = inl r ->
     get_extended_description env = ([Post 0], Some r)) /\
  (forall e0 r,
     attempt_once (env 0) = inr e0 -> attempt_once (env 1) = inl r ->
     get_extended_description env = ([Post 0; Sleep 1; Post 1], Some r)) /\
  (forall e0 e1 r,
     attempt_once (env 0) = inr e0 -> attempt_once (env 1) = inr e1 ->
     attempt_once (env 2) = inl r ->
     get_extended_description env =
       ([Post 0; Sleep 1; Post 1; Sleep 2; Post 2], Some r)) /\
  (forall e0 e1 e2,
     attempt_once (env 0) = inr e0 -> attempt_once (env 1) = inr e1 ->
     attempt_once (env 2) = inr e2 ->
     get_extended_description env =
       ([Post 0; Sleep 1; Post 1; Sleep 2; Post 2],
        Some (None, "ERROR after retries: " ++ e2)%string)).
Proof.
  split; [apply executor_value|]. split; [apply executor_value|].
  rewrite get_extended_description_cases.
  split; [|split; [|split; [|split]]].
  - intros k r. apply attempt_once_success.
  - intros r ->. reflexivity.
  - intros e0 r -> ->. reflexivity.
  - intros e0 e1 r -> -> ->. reflexivity.
  - intros e0 e1 e2 -> -> ->. reflexivity.
Qed.

Lemma executor_retries_witness :
  get_extended_description third_time_lucky =
    ([Post 0; Sleep 1; Post 1; Sleep 2; Post 2], Some (Some 7%Z, "Reads mail")) /\
  get_extended_description (fun _ => Responds 503 "busy") =
    ([Post 0; Sleep 1; Post 1; Sleep 2; Post 2],
     Some (None, "ERROR after retries: Ollama error 503: busy")).
Proof.
  split.
  - refine (proj1 (proj2 (proj2 (proj2 (proj2 (proj2
      (executor_retries third_time_lucky))))))
      "" "" (Some 7%Z, "Reads mail") _ _ _); reflexivity.
  - refine (proj2 (proj2 (proj2 (proj2 (proj2 (proj2
      (executor_retries (fun _ => Responds 503 "busy")))))))
      "Ollama error 503: busy" "Ollama error 503: busy" "Ollama error 503: busy"
      _ _ _); reflexivity.
Defined.




(** C6: the asynchronous executor parses the whole text of the body.  On
    the JSON body whose [response] field is [7,Reads mail] it returns an
    absent score and the tail of the serialized object, where the
    synchronous script, which parses the field, returns the score 7 and
    the description [Reads mail]. *)
Theorem async_parses_whole_body :
  (forall body, attempt_once (Responds 200 body) = inl (parse_reply body)) /\
  attempt_once (Responds 200 json_body) =
    inl (None, "Reads mail" ++ dq ++ "}")%string /\
  Sync.get_extended_description (Sync.Responds "7,Reads mail") =
    inl (Some 7%Z, "Reads mail").
Proof.
  split; [reflexivity|]. split; vm_compute; reflexivity.
Qed.

End ExecutorSpec.

(** ** The event loop *)
Module LoopSpec.
Import Parser Executor Orchestrator Invariants.

Lemma total_insert (f : task -> nat) (ts : list task) (i : nat) (t t' : task) :
  ts !! i = Some t ->
  total f (<[i := t']> ts) + f t = total f ts + f t'.
Proof.
  unfold total. revert i. induction ts as [|u ts IH]; intros [|i] H; simplify_eq/=.
  - lia.
  - specialize (IH _ H). lia.
Qed.

Lemma in_flight_total (s : system) : in_flight s = total slots (tasks s).
Proof.
  unfold in_flight, total. induction (tasks s) as [|t ts IH]; [reflexivity|].
  cbn. unfold slots at 1. destruct (holds_slot t); cbn; lia.
Qed.

Lemma done_from_insert_done (j : nat) (ts : list task) (i : nat) (t : task)
    (r : option result) :
  ts !! i = Some t -> is_done t = false ->
  done_from j (<[i := Done r]> ts) ≡ₚ (j + i, r) :: done_from j ts.
Proof.
  revert j i. induction ts as [|u ts IH]; intros j [|i] H Hd; simplify_eq/=.
  - replace (j + 0) with j by lia. destruct t; simplify_eq/=; reflexivity.
  - pose proof (IH (S j) i H Hd) as E.
    replace (S j + i) with (j + S i) in E by lia.
    destruct u; try exact E.
    rewrite E. apply Permutation_swap.
Qed.

Lemma done_from_insert_other (j : nat) (ts : list task) (i : nat) (t t' : task) :
  ts !! i = Some t -> is_done t = false -> is_done t' = false ->
  done_from j (<[i := t']> ts) = done_from j ts.
Proof.
  revert j i. induction ts as [|u ts IH]; intros j [|i] H Hd Hd'; simplify_eq/=.
  - destruct t, t'; simplify_eq/=; reflexivity.
  - pose proof (IH (S j) i H Hd Hd') as E. destruct u; rewrite E; reflexivity.
Qed.

Lemma elem_of_done_from (j : nat) (ts : list task) (i : nat) (r : option result) :
  (i, r) ∈ done_from j ts <-> j <= i /\ ts !! (i - j) = Some (Done r).
Proof.
  revert j. induction ts as [|u ts IH]; intros j; cbn [done_from].
  - rewrite elem_of_nil, lookup_nil. split; [tauto|]. intros [_ [=]].
  - assert (Htail : (i, r) ∈ done_from (S j) ts <->
                    j < i /\ (u :: ts) !! (i - j) = Some (Done r)).
    { rewrite IH. split; intros [Hle Hl]; (split; [lia|]).
      - replace (i - j) with (S (i - S j)) by lia. exact Hl.
      - replace (i - j) with (S (i - S j)) in Hl by lia. exact Hl. }
    assert (Hhead : forall r', (i, r) = (j, r') <->
                    i = j /\ (Done r' :: ts) !! (i - j) = Some (Done r)).
    { intros r'. split.
      - intros [= -> ->]. rewrite Nat.sub_diag. auto.
      - intros [-> Hl]. rewrite Nat.sub_diag in Hl. cbn in Hl. congruence. }
    destruct u as [| | |r'].
    4: { rewrite elem_of_cons, Htail, Hhead. split.
         - intros [[-> Hl]|[Hlt Hl]]; (split; [lia|exact Hl]).
         - intros [Hle Hl]. destruct (decide (i = j)); [left|right]; (split; [lia|exact Hl]). }
    all: rewrite Htail; split; [intuition lia|];
         intros [Hle Hl]; split; [|exact Hl];
         destruct (decide (i = j)) as [->|]; [|lia];
         rewrite Nat.sub_diag in Hl; discriminate.
Qed.

Lemma done_from_sorted (j : nat) (ts : list task) :
  StronglySorted index_le (done_from j ts).
Proof.
  revert j. induction ts as [|u ts IH]; intros j; cbn [done_from]; [constructor|].
  destruct u; try apply IH.
  constructor; [apply IH|].
  apply Forall_forall. intros [i r'] Hin%elem_of_done_from.
  unfold index_le. cbn. lia.
Qed.

Lemma resume_success (e : nat -> http_outcome) (k : nat) (r : result) :
  k <= 2 -> attempt_once (e k) = inl r -> resume e k = Some r.
Proof.
  intros Hk E. unfold resume.
  destruct k as [|[|[|k]]]; [| | |lia]; cbn [Nat.sub seq run_attempts]; rewrite E; reflexivity.
Qed.

Lemma resume_failed_last (e : nat -> http_outcome) (x : string) :
  attempt_once (e 2) = inr x -> resume e 2 = Some (failed x).
Proof. intros E. unfold resume. cbn [Nat.sub seq run_attempts]. rewrite E. reflexivity. Qed.

Lemma resume_failed (e : nat -> http_outcome) (k : nat) (x : string) :
  k <= 1 -> attempt_once (e k) = inr x -> resume e k = resume e (S k).
Proof.
  intros Hk E. unfold resume.
  destruct k as [|[|k]]; [| |lia].
  - change (seq 0 (3 - 0)) with (0 :: seq 1 (3 - 1)).
    rewrite (ExecutorSpec.run_attempts_failed e 0 _ x E) by discriminate. reflexivity.
  - change (seq 1 (3 - 1)) with (1 :: seq 2 (3 - 2)).
    rewrite (ExecutorSpec.run_attempts_failed e 1 _ x E) by discriminate. reflexivity.
Qed.

Lemma total_replicate (f : task -> nat) (m : nat) (t : task) :
  total f (replicate m t) = m * f t.
Proof. unfold total. induction m as [|m IH]; cbn in *; lia. Qed.

Lemma inv_init (env : nat -> nat -> http_outcome) (n m : nat) : inv env n m (init n m).
Proof.
  split.
  - apply length_replicate.
  - rewrite in_flight_total. cbn [init tasks sem]. rewrite total_replicate. cbn. lia.
  - intros i t [-> _]%lookup_replicate. exact I.
  - cbn [init tasks completed]. generalize 0.
    induction m as [|m IH]; intros j; cbn; [reflexivity|apply IH].
Qed.

Section step.
Context (env : nat -> nat -> http_outcome) (n m : nat).

(** Task [i] moves from [t] to a state [t'] that has not returned. *)
Lemma inv_move (s : system) (i : nat) (t t' : task) (k : nat) (evs : list net_event) :
  inv env n m s ->
  tasks s !! i = Some t -> is_done t = false -> is_done t' = false ->
  task_inv (env i) t' ->
  k + slots t' = sem s + slots t ->
  weight t' < weight t ->
  let s' := {| sem := k; tasks := <[i := t']> (tasks s);
               completed := completed s; net := evs |} in
  inv env n m s' /\ total weight (tasks s') < total weight (tasks s).
Proof.
  intros [Hlen Hsem Htasks Hcomp] Hi Hd Hd' Ht' Hslots Hw s'.
  pose proof (total_insert slots _ _ _ t' Hi) as Es.
  pose proof (total_insert weight _ _ _ t' Hi) as Ew.
  subst s'. rewrite in_flight_total in Hsem.
  split; [split|]; rewrite ?in_flight_total; cbn [sem tasks completed net].
  - rewrite length_insert. exact Hlen.
  - lia.
  - intros i' u Hu. destruct (decide (i = i')) as [<-|Hne].
    + rewrite list_lookup_insert_eq in Hu by (eapply lookup_lt_Some; eassumption).
      by simplify_eq.
    + rewrite list_lookup_insert_ne in Hu by done. eauto.
  - rewrite (done_from_insert_other _ _ _ _ _ Hi Hd Hd'). exact Hcomp.
  - lia.
Qed.

(** Task [i] returns [r]. *)
Lemma inv_finish (s : system) (i : nat) (t : task) (r : option result) :
  inv env n m s ->
  tasks s !! i = Some t -> holds_slot t = true ->
  r = final (env i) ->
  0 < weight t ->
  inv env n m (finish i r s) /\
  total weight (tasks (finish i r s)) < total weight (tasks s).
Proof.
  intros [Hlen Hsem Htasks Hcomp] Hi Hh Hr Hw.
  pose proof (total_insert slots _ _ _ (Done r) Hi) as Es.
  pose proof (total_insert weight _ _ _ (Done r) Hi) as Ew.
  assert (Hd : is_done t = false) by (destruct t; simplify_eq/=; reflexivity).
  assert (Hs : slots t = 1) by (unfold slots; rewrite Hh; reflexivity).
  change (slots (Done r)) with 0 in Es. change (weight (Done r)) with 0 in Ew.
  rewrite in_flight_total in Hsem. unfold finish.
  split; [split|]; rewrite ?in_flight_total; cbn [sem tasks completed net].
  - rewrite length_insert. exact Hlen.
  - lia.
  - intros i' u Hu. destruct (decide (i = i')) as [<-|Hne].
    + rewrite list_lookup_insert_eq in Hu by (eapply lookup_lt_Some; eassumption).
      by simplify_eq.
    + rewrite list_lookup_insert_ne in Hu by done. eauto.
  - rewrite (done_from_insert_done _ _ _ _ r Hi Hd), Hcomp.
    symmetry. apply Permutation_cons_append.
  - lia.
Qed.

Lemma step_inv (i : nat) (s s' : system) :
  inv env n m s -> step env i s = Some s' ->
  inv env n m s' /\ total weight (tasks s') < total weight (tasks s).
Proof.
  intros Hinv Hstep. unfold step in Hstep.
  destruct (tasks s !! i) as [t|] eqn:Hi; [|discriminate].
  pose proof (inv_tasks _ _ _ _ Hinv i t Hi) as Ht.
  destruct t as [|k|k|r]; cbn in Ht.
  - destruct (sem s) as [|c] eqn:Hc; [discriminate|]. simplify_eq.
    apply (inv_move s i Waiting (Posting 0) c); cbn; auto; lia.
  - destruct Ht as [Hk Hres].
    assert (Hw : 0 < weight (Posting k)) by (cbn; lia).
    destruct (attempt_once (env i k)) as [r|x] eqn:E.
    + simplify_eq. apply (inv_finish s i (Posting k)); auto.
      rewrite <- Hres. symmetry. by apply resume_success.
    + destruct (Nat.eqb_spec k 2) as [->|Hne]; simplify_eq.
      * apply (inv_finish s i (Posting 2)); auto.
        rewrite <- Hres. symmetry. by apply resume_failed_last.
      * destruct s as [c ts done evs]. cbn in *.
        apply (inv_move (Build_system c ts done evs) i (Posting k) (Sleeping k) c);
          cbn; auto; try lia.
        split; [lia|]. rewrite <- Hres. symmetry. eapply resume_failed; [lia|eassumption].
  - destruct Ht as [Hk Hres].
    destruct (Nat.ltb_spec (S k) 3) as [Hlt|Hge]; [|lia]. simplify_eq.
    apply (inv_move s i (Sleeping k) (Posting (S k)) (sem s)); cbn; auto; try lia.
    split; [lia|exact Hres].
  - discriminate.
Qed.

End step.

Section runs.
Context (env : nat -> nat -> http_outcome) (n m : nat).

Lemma steps_inv (k : nat) (s s' : system) :
  inv env n m s -> steps env k s s' ->
  inv env n m s' /\ k + total weight (tasks s') <= total weight (tasks s).
Proof.
  intros Hinv Hsteps. induction Hsteps as [s|k i s s1 s2 Hstep _ IH].
  - split; [exact Hinv|lia].
  - destruct (step_inv env n m i s s1 Hinv Hstep) as [Hinv1 Hlt].
    destruct (IH Hinv1) as [Hinv2 Hle]. split; [exact Hinv2|lia].
Qed.

Lemma run_inv (sched : list nat) (s : system) :
  inv env n m s ->
  inv env n m (run env sched s) /\
  total weight (tasks (run env sched s)) <= total weight (tasks s).
Proof.
  revert s. induction sched as [|i sched IH]; intros s Hinv; cbn [run].
  - split; [exact Hinv|lia].
  - destruct (step env i s) as [s1|] eqn:Hstep; [|apply IH; exact Hinv].
    destruct (step_inv env n m i s s1 Hinv Hstep) as [Hinv1 Hlt].
    destruct (IH s1 Hinv1) as [Hinv2 Hle]. split; [exact Hinv2|lia].
Qed.

(** A round that does not lower the weight could not resume any of
    its tasks. *)
Lemma run_no_progress (sched : list nat) (s : system) :
  inv env n m s ->
  total weight (tasks s) <= total weight (tasks (run env sched s)) ->
  forall i, In i sched -> step env i s = None.
Proof.
  revert s. induction sched as [|j sched IH]; intros s Hinv Hle i Hin; [destruct Hin|].
  cbn [run] in Hle. destruct (step env j s) as [s1|] eqn:Hstep.
  - destruct (step_inv env n m j s s1 Hinv Hstep) as [Hinv1 Hlt].
    destruct (run_inv sched s1 Hinv1) as [_ Hle1]. lia.
  - destruct Hin as [<-|Hin]; [exact Hstep|]. apply IH; assumption.
Qed.

Lemma holds_slot_steps (s : system) (i : nat) (t : task) :
  tasks s !! i = Some t -> holds_slot t = true -> step env i s <> None.
Proof.
  intros Hi Hh. unfold step. rewrite Hi.
  destruct t as [|k|k|r]; try discriminate.
  - destruct (attempt_once (env i k)); [discriminate|].
    destruct (Nat.eqb k 2); discriminate.
  - destruct (Nat.ltb (S k) 3); discriminate.
Qed.

Lemma total_zero (f : task -> nat) (ts : list task) :
  Forall (fun t => f t = 0) ts -> total f ts = 0.
Proof.
  unfold total. induction 1 as [|t ts Ht _ IH]; cbn; [reflexivity|lia].
Qed.

Lemma total_zero_inv (f : task -> nat) (ts : list task) :
  total f ts = 0 -> Forall (fun t => f t = 0) ts.
Proof.
  unfold total. induction ts as [|t ts IH]; cbn; intros H; constructor; [lia|].
  apply IH. lia.
Qed.

(** When no task can be resumed, every task has returned. *)
Lemma stuck_all_done (s : system) :
  1 <= n -> inv env n m s ->
  (forall i, step env i s = None) ->
  Forall (fun t => is_done t = true) (tasks s).
Proof.
  intros Hn Hinv Hstuck.
  assert (Hfree : Forall (fun t => slots t = 0) (tasks s)).
  { apply Forall_lookup. intros i t Hi. unfold slots.
    destruct (holds_slot t) eqn:Hh; [|reflexivity].
    destruct (holds_slot_steps s i t Hi Hh). apply Hstuck. }
  pose proof (inv_sem _ _ _ _ Hinv) as Hsem.
  rewrite in_flight_total, (total_zero _ _ Hfree) in Hsem.
  apply Forall_lookup. intros i t Hi.
  pose proof (Hstuck i) as Hi'. unfold step in Hi'. rewrite Hi in Hi'.
  rewrite Forall_lookup in Hfree. specialize (Hfree i t Hi).
  destruct t as [|k|k|r]; try discriminate; try reflexivity.
  destruct (sem s); [lia|discriminate].
Qed.

Lemma all_done_weight (s : system) :
  Forall (fun t => is_done t = true) (tasks s) -> total weight (tasks s) = 0.
Proof.
  intros H. apply total_zero. eapply Forall_impl; [exact H|].
  intros [] ?; simplify_eq/=; reflexivity.
Qed.

Lemma weight_all_done (s : system) :
  inv env n m s -> total weight (tasks s) = 0 ->
  Forall (fun t => is_done t = true) (tasks s).
Proof.
  intros Hinv H0. apply total_zero_inv in H0.
  apply Forall_lookup. intros i t Hi.
  rewrite Forall_lookup in H0. specialize (H0 i t Hi).
  pose proof (inv_tasks _ _ _ _ Hinv i t Hi) as Ht.
  destruct t as [|k|k|r]; cbn in *; try reflexivity; lia.
Qed.

Lemma fair_cons (round : list nat) (rounds : list (list nat)) :
  fair m (round :: rounds) ->
  (forall i, i < m -> In i round) /\ fair m rounds.
Proof.
  unfold fair. cbn [forallb]. intros [Hr Hrs]%andb_prop. split; [|exact Hrs].
  intros i Hi. rewrite List.forallb_forall in Hr.
  specialize (Hr i (proj2 (in_seq m 0 i) (conj (Nat.le_0_l _) Hi))).
  apply List.existsb_exists in Hr as (j & Hj & ->%Nat.eqb_eq). exact Hj.
Qed.

(** One fair round lowers the weight unless everything has returned. *)
Lemma round_progress (round : list nat) (s : system) :
  1 <= n -> inv env n m s -> (forall i, i < m -> In i round) ->
  total weight (tasks (run env round s)) <= total weight (tasks s) - 1.
Proof.
  intros Hn Hinv Hround.
  destruct (run_inv round s Hinv) as [_ Hle].
  destruct (Nat.eq_dec (total weight (tasks (run env round s))) (total weight (tasks s)))
    as [Heq|Hne]; [|lia].
  assert (Hstuck : forall i, step env i s = None).
  { intros i. destruct (Nat.lt_ge_cases i m) as [Hi|Hi].
    - apply (run_no_progress round s Hinv); [lia|auto].
    - unfold step. rewrite (lookup_ge_None_2 (tasks s) i); [reflexivity|].
      rewrite (inv_len _ _ _ _ Hinv). exact Hi. }
  rewrite Heq, (all_done_weight s (stuck_all_done s Hn Hinv Hstuck)). lia.
Qed.

Lemma run_app (l1 l2 : list nat) (s : system) :
  run env (l1 ++ l2) s = run env l2 (run env l1 s).
Proof.
  revert s. induction l1 as [|i l1 IH]; intros s; cbn [run app]; [reflexivity|].
  destruct (step env i s); apply IH.
Qed.

(** Enough fair rounds bring every task to its end. *)
Lemma fair_all_done (rounds : list (list nat)) (s : system) :
  1 <= n -> inv env n m s -> fair m rounds ->
  total weight (tasks s) <= length rounds ->
  Forall (fun t => is_done t = true) (tasks (run env (concat rounds) s)).
Proof.
  intros Hn. revert s. induction rounds as [|round rounds IH]; intros s Hinv Hfair Hw.
  - cbn in *. apply weight_all_done; [exact Hinv|lia].
  - apply fair_cons in Hfair as [Hround Hfair]. cbn [concat]. rewrite run_app.
    apply IH; [apply run_inv; exact Hinv|exact Hfair|].
    pose proof (round_progress round s Hn Hinv Hround). cbn [length] in Hw. lia.
Qed.

(** A task that has returned holds the executor's pair. *)
Lemma done_is_final (s : system) (i : nat) (t : task) :
  inv env n m s -> tasks s !! i = Some t -> is_done t = true ->
  exists r, t = Done (Some r) /\ final (env i) = Some r.
Proof.
  intros Hinv Hi Hd. destruct t as [| | |r]; try discriminate.
  pose proof (inv_tasks _ _ _ _ Hinv i _ Hi) as Ht. cbn in Ht. subst r.
  destruct (proj1 (ExecutorSpec.executor_value (env i))) as [r Hr].
  exists r. unfold final. rewrite Hr. auto.
Qed.

Lemma all_done_completed (s : system) :
  inv env n m s -> Forall (fun t => is_done t = true) (tasks s) ->
  completed_all m s.
Proof.
  intros Hinv Hall. split; [apply (inv_len _ _ _ _ Hinv)|].
  intros i Hi. rewrite <- (inv_len _ _ _ _ Hinv) in Hi.
  destruct (lookup_lt_is_Some_2 _ _ Hi) as [t Ht].
  rewrite Forall_lookup in Hall.
  destruct (done_is_final s i t Hinv Ht (Hall i t Ht)) as (r & -> & _). eauto.
Qed.

End runs.

Lemma run_steps (env : nat -> nat -> http_outcome) (sched : list nat) (s : system) :
  exists k, steps env k s (run env sched s).
Proof.
  revert s. induction sched as [|i sched IH]; intros s; cbn [run].
  - exists 0. constructor.
  - destruct (step env i s) as [s1|] eqn:Hstep; [|apply IH].
    destruct (IH s1) as [k Hk]. exists (S k). econstructor; eassumption.
Qed.

Lemma index_le_trans : Transitive index_le.
Proof. intros a b c. unfold index_le. lia. Qed.

Lemma index_le_total : Total index_le.
Proof. intros a b. unfold index_le. lia. Qed.

Lemma done_from_values (env : nat -> nat -> http_outcome) (j : nat) (ts : list task) :
  (forall i t, ts !! i = Some t -> t = Done (final (env (j + i)))) ->
  map snd (done_from j ts) = map (fun i => final (env i)) (seq j (length ts)).
Proof.
  revert j. induction ts as [|t ts IH]; intros j H; [reflexivity|].
  pose proof (H 0 t eq_refl) as Ht. rewrite Nat.add_0_r in Ht. subst t.
  cbn. f_equal. apply IH. intros i t Hi.
  replace (S j + i) with (j + S i) by lia. apply H. exact Hi.
Qed.

(** Once every task has returned, gather gives the executor's values in
    the order of the rows, whatever the order of completion. *)
Lemma gather_by_position (env : nat -> nat -> http_outcome) (n m : nat) (s : system) :
  inv env n m s -> Forall (fun t => is_done t = true) (tasks s) ->
  gather s = map (fun i => final (env i)) (seq 0 m).
Proof.
  intros Hinv Hall. unfold gather.
  pose proof (inv_completed _ _ _ _ Hinv) as Hperm.
  assert (E : merge_sort index_le (completed s) = done_from 0 (tasks s)).
  { apply (@Sorted_unique_strong _ index_le index_le_trans).
    - intros [i1 r1] [i2 r2] H1 H2 Hle Hge.
      rewrite merge_sort_Permutation, Hperm in H1.
      apply elem_of_done_from in H1 as [_ H1], H2 as [_ H2].
      unfold index_le in *. cbn in *. assert (i1 = i2) by lia. subst i2.
      congruence.
    - apply (@Sorted_merge_sort _ index_le _ index_le_total).
    - apply Sorted.StronglySorted_Sorted, done_from_sorted.
    - rewrite merge_sort_Permutation. exact Hperm. }
  rewrite E, <- (inv_len _ _ _ _ Hinv). apply done_from_values.
  intros i t Hi. rewrite Forall_lookup in Hall.
  pose proof (inv_tasks _ _ _ _ Hinv i t Hi) as Ht.
  specialize (Hall i t Hi). destruct t; try discriminate. cbn in Ht. by subst.
Qed.

Lemma all_done_Forall (s : system) :
  all_done s = true <-> Forall (fun t => is_done t = true) (tasks s).
Proof.
  unfold all_done. rewrite List.forallb_forall, Forall_forall.
  split; intros H t Ht; apply H; [apply list_elem_of_In|apply list_elem_of_In in Ht]; exact Ht.
Qed.

(** C3: with a cap of [N] >= 1 slots and [M] scheduled requests, in every
    state the event loop can reach, by whatever interleaving, at most [N]
    requests are in flight; no interleaving has more than [6 * M]
    resumptions; a state in which no task can be resumed is one where all
    [M] tasks have returned a pair; and every schedule made of at least
    [6 * M] rounds that each resume every task ends with all [M] tasks
    returned. *)
Theorem concurrency_cap_and_completion
    (env : nat -> nat -> http_outcome) (N M : nat) :
  1 <= N ->
  (forall k s, steps env k (init N M) s -> in_flight s <= N /\ k <= 6 * M) /\
  (forall sched, in_flight (run env sched (init N M)) <= N) /\
  (forall k s, steps env k (init N M) s ->
     (forall i, step env i s = None) -> completed_all M s) /\
  (forall rounds, fair M rounds -> 6 * M <= length rounds ->
     completed_all M (run env (concat rounds) (init N M))).
Proof.
  intros HN. pose proof (inv_init env N M) as Hinit.
  assert (Hw : total weight (tasks (init N M)) = 6 * M).
  { cbn [init tasks]. rewrite total_replicate. cbn [weight]. lia. }
  assert (Hcap : forall s, inv env N M s -> in_flight s <= N).
  { intros s Hs. pose proof (inv_sem _ _ _ _ Hs). lia. }
  split; [|split; [|split]].
  - intros k s Hsteps. destruct (steps_inv env N M k _ _ Hinit Hsteps) as [Hs Hle].
    split; [apply Hcap; exact Hs|lia].
  - intros sched. apply Hcap, run_inv, Hinit.
  - intros k s Hsteps Hstuck.
    destruct (steps_inv env N M k _ _ Hinit Hsteps) as [Hs _].
    apply (all_done_completed env N M s Hs), (stuck_all_done env N M s HN Hs Hstuck).
  - intros rounds Hfair Hlen.
    apply (all_done_completed env N M); [apply run_inv, Hinit|].
    apply (fair_all_done env N M); [exact HN|exact Hinit|exact Hfair|lia].
Qed.

Lemma concurrency_cap_and_completion_witness :
  in_flight (run Samples.env_mixed [0; 1; 2; 3; 4] (init 2 5)) <= 2 /\
  completed_all 5 (run Samples.env_mixed (concat (Samples.round_robin 5 30)) (init 2 5)).
Proof.
  destruct (concurrency_cap_and_completion Samples.env_mixed 2 5) as (_ & Hcap & _ & Hall);
    [lia|].
  split; [apply Hcap|].
  apply Hall; [vm_compute; reflexivity|vm_compute; lia].
Defined.

End LoopSpec.

(** ** The orchestrator *)
Module OrchestratorSpec.
Import PyStr Parser Executor Table Orchestrator Invariants Samples.

Lemma lookup_col_replace (c name : string) (vals : list cell)
    (cs : list (string * list cell)) :
  lookup_col c (replace_col name vals cs) =
  if String.eqb c name then Some vals else lookup_col c cs.
Proof.
  induction cs as [|[n vs] cs IH]; cbn.
  - destruct (String.eqb c name); reflexivity.
  - destruct (String.eqb_spec name n) as [->|Hne]; cbn.
    + destruct (String.eqb c n); reflexivity.
    + rewrite IH. destruct (String.eqb_spec c n) as [->|]; [|reflexivity].
      destruct (String.eqb_spec n name) as [->|]; [contradiction|reflexivity].
Qed.

Lemma has_column_lookup (df : DataFrame) (c : string) :
  has_column df c = is_Some_b (lookup_col c (cols df)).
Proof.
  unfold has_column, columns. induction (cols df) as [|[n vs] cs IH]; cbn; [reflexivity|].
  destruct (String.eqb c n); [reflexivity|exact IH].
Qed.

Lemma set_column_cols (name : string) (vals : list cell) (df : DataFrame) :
  length vals = index_len df ->
  set_column name vals df =
  Some {| index_len := index_len df; cols := replace_col name vals (cols df) |}.
Proof. intros H. unfold set_column. rewrite H, Nat.eqb_refl. reflexivity. Qed.

Lemma required_present (df : DataFrame) (c : string) :
  missing_required df = [] -> In c required_cols ->
  exists vs, lookup_col c (cols df) = Some vs.
Proof.
  unfold missing_required. intros Hm Hc.
  destruct (lookup_col c (cols df)) as [vs|] eqn:E; [eauto|].
  assert (Hin : In c (List.filter (fun c => negb (has_column df c)) required_cols)).
  { apply List.filter_In. split; [exact Hc|]. rewrite has_column_lookup, E. reflexivity. }
  rewrite Hm in Hin. destruct Hin.
Qed.

(** The table the merge writes: the four input columns as they are, then
    the two new ones. *)
Lemma merge_written (df : DataFrame) (scores descs : list cell) :
  missing_required df = [] ->
  length scores = index_len df -> length descs = index_len df ->
  exists vt vn vd vs,
    lookup_col "privilege_type" (cols df) = Some vt /\
    lookup_col "privilege_name" (cols df) = Some vn /\
    lookup_col "privilege_description" (cols df) = Some vd /\
    lookup_col "privilege_score" (cols df) = Some vs /\
    merge df scores descs =
    Written {| index_len := index_len df;
               cols := [("privilege_type", vt); ("privilege_name", vn);
                        ("privilege_description", vd); ("privilege_score", vs);
                        ("suggested_privilege_score", scores);
                        ("extended_description", descs)] |}.
Proof.
  intros Hm Hs Hd.
  destruct (required_present df "privilege_type" Hm) as [vt Ht]; [cbn; tauto|].
  destruct (required_present df "privilege_name" Hm) as [vn Hn]; [cbn; tauto|].
  destruct (required_present df "privilege_description" Hm) as [vd Hdesc]; [cbn; tauto|].
  destruct (required_present df "privilege_score" Hm) as [vs Hsc]; [cbn; tauto|].
  exists vt, vn, vd, vs. repeat (split; [assumption|]).
  unfold merge. rewrite (set_column_cols _ _ _ Hs).
  rewrite set_column_cols by exact Hd.
  unfold missing_desired, desired_cols. cbn [List.filter].
  rewrite !has_column_lookup. cbn [cols index_len].
  unfold select. cbn [mapM cols index_len].
  rewrite !lookup_col_replace. cbn [String.eqb Ascii.eqb Bool.eqb].
  rewrite Ht, Hn, Hdesc, Hsc. reflexivity.
Qed.

Lemma lookup_col_In (c : string) (cs : list (string * list cell)) (vs : list cell) :
  lookup_col c cs = Some vs -> exists n, In (n, vs) cs.
Proof.
  induction cs as [|[n ws] cs IH]; cbn; [discriminate|].
  destruct (String.eqb c n).
  - intros [= ->]. eauto.
  - intros H. destruct (IH H) as [n' Hn']. eauto.
Qed.

Lemma well_formed_lookup (df : DataFrame) (c : string) (vs : list cell) :
  well_formed df -> lookup_col c (cols df) = Some vs -> length vs = index_len df.
Proof.
  intros Hwf Hl. destruct (lookup_col_In _ _ _ Hl) as [n Hn].
  unfold well_formed in Hwf. rewrite Forall_forall in Hwf.
  apply (Hwf (n, vs)), list_elem_of_In, Hn.
Qed.

(** C1: for a table with the four required columns, once the health
    check has passed, the run writes a table with the same index as the
    input: the four input columns unchanged (so the row of position [i]
    keeps its [privilege_name]), followed by the suggested scores and the
    extended descriptions, whose entry at position [i] is what the
    executor returns for row [i].  This holds for every schedule that
    brings all tasks to their end, whatever the order in which they
    complete, every schedule of at least [6 * m] rounds that each resume
    every task is such a schedule, and it holds whatever the requests
    answer, so also when all of them fail. *)
Theorem rows_preserved_by_position (df : DataFrame) (env : nat -> nat -> http_outcome) :
  missing_required df = [] ->
  let m := index_len df in
  let enriched :=
    map (fun i => split_result (snd (get_extended_description (env i)))) (seq 0 m) in
  exists vt vn vd vs,
    lookup_col "privilege_type" (cols df) = Some vt /\
    lookup_col "privilege_name" (cols df) = Some vn /\
    lookup_col "privilege_description" (cols df) = Some vd /\
    lookup_col "privilege_score" (cols df) = Some vs /\
    let out :=
      {| index_len := m;
         cols := [("privilege_type", vt); ("privilege_name", vn);
                  ("privilege_description", vd); ("privilege_score", vs);
                  ("suggested_privilege_score", map fst enriched);
                  ("extended_description", map snd enriched)] |} in
    (forall sched,
        all_done (run env sched (init MAX_CONCURRENT_REQUESTS m)) = true ->
        snd (process_csv_async df true env sched) = Written out) /\
    (forall rounds, fair m rounds -> 6 * m <= length rounds ->
        snd (process_csv_async df true env (concat rounds)) = Written out) /\
    length enriched = m /\
    (well_formed df -> well_formed out).
Proof.
  intros Hm m enriched.
  assert (Hlen : length enriched = m).
  { unfold enriched. rewrite length_map, length_seq. reflexivity. }
  destruct (merge_written df (map fst enriched) (map snd enriched) Hm)
    as (vt & vn & vd & vs & Ht & Hn & Hd & Hs & Hmerge);
    [rewrite length_map; exact Hlen..|].
  exists vt, vn, vd, vs. repeat (split; [assumption|]).
  assert (Hsched : forall sched,
            all_done (run env sched (init MAX_CONCURRENT_REQUESTS m)) = true ->
            snd (process_csv_async df true env sched) = Written
              {| index_len := m;
                 cols := [("privilege_type", vt); ("privilege_name", vn);
                          ("privilege_description", vd); ("privilege_score", vs);
                          ("suggested_privilege_score", map fst enriched);
                          ("extended_description", map snd enriched)] |}).
  { intros sched Hall. unfold process_csv_async. rewrite Hm. cbv zeta.
    fold m. rewrite Hall. cbn [snd].
    pose proof (LoopSpec.run_inv env MAX_CONCURRENT_REQUESTS m sched _
                  (LoopSpec.inv_init env MAX_CONCURRENT_REQUESTS m)) as [Hinv _].
    rewrite (LoopSpec.gather_by_position env _ m _ Hinv
               (proj1 (LoopSpec.all_done_Forall _) Hall)).
    assert (E : map split_result (map (fun i => final (env i)) (seq 0 m)) = enriched)
      by (unfold enriched; rewrite map_map; reflexivity).
    rewrite E. exact Hmerge. }
  split; [exact Hsched|]. split; [|split; [exact Hlen|]].
  - intros rounds Hfair Hrounds. apply Hsched, LoopSpec.all_done_Forall.
    apply (LoopSpec.fair_all_done env MAX_CONCURRENT_REQUESTS m);
      [unfold MAX_CONCURRENT_REQUESTS; lia
      |apply LoopSpec.inv_init|exact Hfair|].
    cbn [init tasks]. rewrite LoopSpec.total_replicate. cbn [weight]. lia.
  - intros Hwf. unfold well_formed. cbn [cols index_len].
    repeat constructor; cbn [snd];
      first [ eapply well_formed_lookup; eassumption
            | rewrite length_map; exact Hlen ].
Qed.

Lemma rows_preserved_by_position_witness :
  snd (process_csv_async df_five true env_down (concat (round_robin 5 30))) =
  Written
    {| index_len := 5;
       cols :=
         [("privilege_type", [Text "scp"; Text "scp"; Text "roles"; Text "roles"; Text "scp"]);
          ("privilege_name",
           [Text "User.Read"; Text "Mail.Send"; Text "Files.Read.All";
            Text "Directory.ReadWrite.All"; Text "Calendars.Read"]);
          ("privilege_description", [NaN; Text "Send mail"; NaN; NaN; NaN]);
          ("privilege_score", [Int 2; Int 8; Int 9; Int 19; Int 3]);
          ("suggested_privilege_score", [Text ""; Text ""; Text ""; Text ""; Text ""]);
          ("extended_description",
           [Text "ERROR after retries: connection refused";
            Text "ERROR after retries: connection refused";
            Text "ERROR after retries: connection refused";
            Text "ERROR after retries: connection refused";
            Text "ERROR after retries: connection refused"])] |} /\
  snd (process_csv_async df_five true env_mixed (concat (round_robin 5 30))) =
  Written
    {| index_len := 5;
       cols :=
         [("privilege_type", [Text "scp"; Text "scp"; Text "roles"; Text "roles"; Text "scp"]);
          ("privilege_name",
           [Text "User.Read"; Text "Mail.Send"; Text "Files.Read.All";
            Text "Directory.ReadWrite.All"; Text "Calendars.Read"]);
          ("privilege_description", [NaN; Text "Send mail"; NaN; NaN; NaN]);
          ("privilege_score", [Int 2; Int 8; Int 9; Int 19; Int 3]);
          ("suggested_privilege_score", [Int 7; Int 12; Text ""; Text ""; Text ""]);
          ("extended_description",
           [Text "Reads the profile"; Text "Sends mail";
            Text "ERROR after retries: Ollama error 500: boom";
            Text "ERROR after retries: Ollama error 500: boom";
            Text "ERROR after retries: Ollama error 500: boom"])] |}.
Proof.
  split.
  - destruct (rows_preserved_by_position df_five env_down eq_refl)
      as (vt & vn & vd & vs & Ht & Hn & Hd & Hs & _ & Hfair & _).
    vm_compute in Ht, Hn, Hd, Hs.
    injection Ht as <-. injection Hn as <-. injection Hd as <-. injection Hs as <-.
    rewrite Hfair; [vm_compute; reflexivity|vm_compute; reflexivity|vm_compute; lia].
  - destruct (rows_preserved_by_position df_five env_mixed eq_refl)
      as (vt & vn & vd & vs & Ht & Hn & Hd & Hs & Hsched & _).
    vm_compute in Ht, Hn, Hd, Hs.
    injection Ht as <-. injection Hn as <-. injection Hd as <-. injection Hs as <-.
    rewrite Hsched; vm_compute; reflexivity.
Defined.

(** C9, as stated, fails on the synchronous script: on a table without
    two of the required columns the health check is sent before the
    validation error, and when the health check fails the run exits without
    validating. *)
Lemma sync_probe_before_validation :
  missing_required df_missing = ["privilege_description"; "privilege_score"] /\
  process_csv df_missing true (fun _ => Sync.Raises "") =
    ([HealthCheck], InvalidInput ["privilege_description"; "privilege_score"]) /\
  process_csv df_missing false (fun _ => Sync.Raises "") = ([HealthCheck], Exit).
Proof. split; [|split]; vm_compute; reflexivity. Qed.

(** C9, amended.  For a table that lacks at least one of the four
    required columns, the asynchronous run ends with the validation error
    that names the required columns the table lacks, and has sent nothing:
    no health check and no enrichment request.  The synchronous script
    sends the health check first; when it is answered the run ends with the
    same validation error before any enrichment request, and when it is not
    the run exits. *)
Theorem validation_before_requests (df : DataFrame) :
  (exists c, In c required_cols /\ has_column df c = false) ->
  missing_required df <> [] /\
  (forall c, In c (missing_required df) <->
             In c required_cols /\ has_column df c = false) /\
  (forall health env sched,
      process_csv_async df health env sched = ([], InvalidInput (missing_required df))) /\
  (forall env, process_csv df true env = ([HealthCheck], InvalidInput (missing_required df))) /\
  (forall env, process_csv df false env = ([HealthCheck], Exit)).
Proof.
  intros (c & Hc & Hmiss).
  assert (Hspec : forall c, In c (missing_required df) <->
                            In c required_cols /\ has_column df c = false).
  { intros d. unfold missing_required. rewrite List.filter_In, negb_true_iff. reflexivity. }
  assert (Hne : missing_required df <> []).
  { intros E. pose proof (proj2 (Hspec c) (conj Hc Hmiss)) as Hin.
    rewrite E in Hin. destruct Hin. }
  split; [exact Hne|]. split; [exact Hspec|]. split; [|split].
  - intros health env sched. unfold process_csv_async.
    destruct (missing_required df); [contradiction|reflexivity].
  - intros env. unfold process_csv.
    destruct (missing_required df); [contradiction|reflexivity].
  - intros env. reflexivity.
Qed.

Lemma validation_before_requests_witness :
  process_csv_async df_missing true env_down [0; 0; 0] =
    ([], InvalidInput ["privilege_description"; "privilege_score"]).
Proof.
  refine (proj1 (proj2 (proj2 (validation_before_requests df_missing _)))
            true env_down [0; 0; 0]).
  exists "privilege_score". split; [cbn; tauto|reflexivity].
Defined.

End OrchestratorSpec.


(** ** The numeric parser and the two-pass script *)
Module TwoPassSpec.
Import PyStr Csv Parser Table Orchestrator TwoPass Samples MoreSamples.

Lemma scan_score_rows_range (rows : list row) (n : Z) :
  scan_score_rows rows = Some (Some n) -> (1 <= n <= 20)%Z.
Proof.
  induction rows as [|r rows IH]; cbn [scan_score_rows]; [discriminate|].
  destruct r as [|f0 fs]; [exact IH|].
  destruct (Parser.is_header f0); [exact IH|].
  destruct (py_int (strip f0)) as [score|]; [|exact IH].
  destruct (1 <=? score)%Z eqn:E1, (score <=? 20)%Z eqn:E2; cbn; try discriminate.
  intros [= <-]. apply Z.leb_le in E1, E2. lia.
Qed.

(** X1: whatever the reply, the numeric parser returns either nothing or
    an integer between 1 and 20; the same holds for the score the two-pass
    script keeps for a row, whatever happens to the request. *)
Theorem parse_score_in_range (text : string) (n : Z) :
  parse_score text = Some n -> (1 <= n <= 20)%Z.
Proof.
  unfold parse_score.
  destruct (scan_score_rows (fst (reader_rows (strip_fences text)))) as [s|] eqn:E.
  - intros ->. exact (scan_score_rows_range _ _ E).
  - rewrite ParserSpec.score_fallback_none. discriminate.
Qed.

Lemma parse_score_in_range_witness :
  parse_score "12" = Some 12%Z /\ (1 <= 12 <= 20)%Z.
Proof. split; [reflexivity|]. exact (parse_score_in_range "12" 12 eq_refl). Defined.

Lemma score_row_in_range (o : Sync.http_outcome) (n : Z) :
  score_row o = Some n -> (1 <= n <= 20)%Z.
Proof.
  unfold score_row, Sync.get_suggested_score. destruct o as [msg|field]; [discriminate|].
  apply parse_score_in_range.
Qed.

Lemma small_score_cases (n : Z) :
  (1 <= n <= 20)%Z ->
  In n [1; 2; 3; 4; 5; 6; 7; 8; 9; 10; 11; 12; 13; 14; 15; 16; 17; 18; 19; 20]%Z.
Proof.
  intros H. cbn.
  assert (n = 1 \/ n = 2 \/ n = 3 \/ n = 4 \/ n = 5 \/ n = 6 \/ n = 7 \/ n = 8 \/
          n = 9 \/ n = 10 \/ n = 11 \/ n = 12 \/ n = 13 \/ n = 14 \/ n = 15 \/
          n = 16 \/ n = 17 \/ n = 18 \/ n = 19 \/ n = 20)%Z by lia.
  intuition auto.
Qed.

(** X2: a reply that is the decimal text of an integer between 1 and 20
    is parsed to that integer, also when the header line precedes it, when
    spaces and a line end surround it, and when it comes in a fenced
    block. *)
Theorem parse_score_conforming (n : Z) :
  (1 <= n <= 20)%Z ->
  parse_score (py_str_int n) = Some n /\
  parse_score ("suggested_privilege_score" ++ nl ++ py_str_int n) = Some n /\
  parse_score (" " ++ py_str_int n ++ " " ++ nl) = Some n /\
  parse_score (ReplyFormat.fenced (py_str_int n)) = Some n.
Proof.
  intros H. apply small_score_cases in H. cbn [In] in H.
  repeat (destruct H as [<-|H]; [repeat split; vm_compute; reflexivity|]).
  destruct H.
Qed.

Lemma parse_score_conforming_witness :
  parse_score ("suggested_privilege_score" ++ nl ++ "17") = Some 17%Z.
Proof. refine (proj1 (proj2 (parse_score_conforming 17 _))). lia. Defined.

(** X3: for a table with the four required columns and an answered
    health check, the two-pass script sends, after the probe, the
    description request and then the score request of each row, in row
    order, and writes the six columns with one entry per input row; every
    entry of the suggested score column is empty or an integer between 1
    and 20, and a failed description request leaves [ERROR: ] and the cause
    in that row only. *)
Theorem two_pass_table (df : DataFrame) (env_desc env_score : nat -> Sync.http_outcome) :
  missing_required df = [] ->
  let rows := seq 0 (index_len df) in
  let scores := map (fun i => score_cell (score_row (env_score i))) rows in
  let descs := map (fun i => Text (describe_row (env_desc i))) rows in
  exists vt vn vd vs,
    lookup_col "privilege_type" (cols df) = Some vt /\
    lookup_col "privilege_name" (cols df) = Some vn /\
    lookup_col "privilege_description" (cols df) = Some vd /\
    lookup_col "privilege_score" (cols df) = Some vs /\
    process_csv df true env_desc env_score =
      (Probe :: flat_map (fun i => [Describe i; Score i]) rows,
       Written {| index_len := index_len df;
                  cols := [("privilege_type", vt); ("privilege_name", vn);
                           ("privilege_description", vd); ("privilege_score", vs);
                           ("suggested_privilege_score", scores);
                           ("extended_description", descs)] |}) /\
    length scores = index_len df /\ length descs = index_len df /\
    Forall (fun c => c = Text "" \/ exists n, c = Int n /\ (1 <= n <= 20)%Z) scores /\
    (forall i e, i < index_len df -> env_desc i = Sync.Raises e ->
       descs !! i = Some (Text ("ERROR: " ++ e)%string)).
Proof.
  intros Hm rows scores descs.
  assert (Hls : length scores = index_len df)
    by (unfold scores, rows; rewrite length_map, length_seq; reflexivity).
  assert (Hld : length descs = index_len df)
    by (unfold descs, rows; rewrite length_map, length_seq; reflexivity).
  destruct (OrchestratorSpec.merge_written df scores descs Hm Hls Hld)
    as (vt & vn & vd & vs & Ht & Hn & Hd & Hs & Hmerge).
  exists vt, vn, vd, vs. repeat (split; [assumption|]).
  split; [|split; [exact Hls|split; [exact Hld|split]]].
  - unfold process_csv. rewrite Hm. cbv zeta. fold rows scores descs.
    rewrite Hmerge. reflexivity.
  - unfold scores. apply Forall_forall. intros c Hc.
    apply list_elem_of_In, in_map_iff in Hc as (i & <- & _).
    destruct (score_row (env_score i)) as [n|] eqn:E; cbn; [right|left; reflexivity].
    exists n. split; [reflexivity|]. exact (score_row_in_range _ _ E).
  - intros i e Hi He. unfold descs, rows.
    rewrite list_lookup_fmap, lookup_seq_lt by exact Hi. cbn.
    unfold describe_row, get_extended_description. rewrite He. reflexivity.
Qed.

Lemma two_pass_table_witness :
  process_csv df_two true
    (fun i => match i with 0 => Sync.Responds "Reads the profile" | _ => Sync.Raises "timeout" end)
    (fun i => match i with 0 => Sync.Responds "25" | _ => Sync.Responds "8" end) =
  ([Probe; Describe 0; Score 0; Describe 1; Score 1],
   Written
     {| index_len := 2;
        cols := [("privilege_type", [Text "scp"; Text "roles"]);
                 ("privilege_name", [Text "User.Read"; Text "Mail.Send"]);
                 ("privilege_description", [NaN; NaN]);
                 ("privilege_score", [Int 5; Int 8]);
                 ("suggested_privilege_score", [Text ""; Int 8]);
                 ("extended_description",
                  [Text "Reads the profile"; Text "ERROR: timeout"])] |}).
Proof.
  destruct (two_pass_table df_two
    (fun i => match i with 0 => Sync.Responds "Reads the profile" | _ => Sync.Raises "timeout" end)
    (fun i => match i with 0 => Sync.Responds "25" | _ => Sync.Responds "8" end) eq_refl)
    as (vt & vn & vd & vs & Ht & Hn & Hd & Hs & Hrun & _).
  vm_compute in Ht, Hn, Hd, Hs.
  injection Ht as <-. injection Hn as <-. injection Hd as <-. injection Hs as <-.
  rewrite Hrun. vm_compute. reflexivity.
Defined.

End TwoPassSpec.

(** ** The synchronous script's batch *)
Module SyncSpec.
Import PyStr Parser Table Orchestrator Samples MoreSamples.

(** The pair the synchronous loop keeps for a row. *)
Lemma sync_row_value (o : Sync.http_outcome) :
  match Sync.get_extended_description o with
  | inl r => r
  | inr e => (None, ("ERROR: " ++ e)%string)
  end =
  match o with
  | Sync.Raises e => (None, ("ERROR: " ++ e)%string)
  | Sync.Responds field => parse_reply (strip field)
  end.
Proof. destruct o; reflexivity. Qed.

(** X4: for a table with the four required columns and an answered
    health check, the synchronous script sends one request per row, in row
    order, and always writes the six-column table with one entry per input
    row: a row whose request raises gets an empty score and [ERROR: ] with
    the cause, every other row the parser's pair for the trimmed
    [response] field.  No request failure ends the run. *)
Theorem sync_batch_table (df : DataFrame) (env : nat -> Sync.http_outcome) :
  missing_required df = [] ->
  let rows := seq 0 (index_len df) in
  let value := fun i =>
    match env i with
    | Sync.Raises e => (None, ("ERROR: " ++ e)%string)
    | Sync.Responds field => parse_reply (strip field)
    end in
  exists vt vn vd vs,
    lookup_col "privilege_type" (cols df) = Some vt /\
    lookup_col "privilege_name" (cols df) = Some vn /\
    lookup_col "privilege_description" (cols df) = Some vd /\
    lookup_col "privilege_score" (cols df) = Some vs /\
    process_csv df true env =
      (HealthCheck :: map (fun i => Request i 0) rows,
       Written {| index_len := index_len df;
                  cols := [("privilege_type", vt); ("privilege_name", vn);
                           ("privilege_description", vd); ("privilege_score", vs);
                           ("suggested_privilege_score",
                            map (fun i => score_cell (fst (value i))) rows);
                           ("extended_description",
                            map (fun i => Text (snd (value i))) rows)] |}).
Proof.
  intros Hm rows value.
  destruct (OrchestratorSpec.merge_written df
              (map (fun i => score_cell (fst (value i))) rows)
              (map (fun i => Text (snd (value i))) rows) Hm)
    as (vt & vn & vd & vs & Ht & Hn & Hd & Hs & Hmerge);
    [unfold rows; rewrite length_map, length_seq; reflexivity..|].
  exists vt, vn, vd, vs. repeat (split; [assumption|]).
  unfold process_csv. rewrite Hm. cbv zeta. fold rows.
  rewrite !map_map. rewrite <- Hmerge. f_equal. f_equal.
  - apply map_ext. intros i. rewrite sync_row_value. reflexivity.
  - apply map_ext. intros i. rewrite sync_row_value. reflexivity.
Qed.

Lemma sync_batch_table_witness :
  process_csv df_two true
    (fun i => match i with 0 => Sync.Raises "timeout" | _ => Sync.Responds " 9,Sends mail " end) =
  ([HealthCheck; Request 0 0; Request 1 0],
   Written
     {| index_len := 2;
        cols := [("privilege_type", [Text "scp"; Text "roles"]);
                 ("privilege_name", [Text "User.Read"; Text "Mail.Send"]);
                 ("privilege_description", [NaN; NaN]);
                 ("privilege_score", [Int 5; Int 8]);
                 ("suggested_privilege_score", [Text ""; Int 9]);
                 ("extended_description", [Text "ERROR: timeout"; Text "Sends mail"])] |}).
Proof.
  destruct (sync_batch_table df_two
    (fun i => match i with 0 => Sync.Raises "timeout" | _ => Sync.Responds " 9,Sends mail " end)
    eq_refl) as (vt & vn & vd & vs & Ht & Hn & Hd & Hs & Hrun).
  vm_compute in Ht, Hn, Hd, Hs.
  injection Ht as <-. injection Hn as <-. injection Hd as <-. injection Hs as <-.
  rewrite Hrun. vm_compute. reflexivity.
Defined.

End SyncSpec.

(** ** The scraper's score heuristic and its removal of duplicates *)
Module ScraperSpec.
Import PyStr Scraper MoreSamples.

Lemma prefix_app_l (a b s : string) :
  String.prefix (a ++ b) s = true -> String.prefix a s = true.
Proof.
  revert s. induction a as [|c a IH]; intros s; [destruct s; reflexivity|].
  destruct s as [|d s]; cbn; [discriminate|].
  destruct (ascii_dec c d); [apply IH|discriminate].
Qed.

Lemma contains_app_l (a b s : string) :
  contains (a ++ b) s = true -> contains a s = true.
Proof.
  induction s as [|d s IH]; cbn [contains].
  - rewrite !orb_false_r. apply prefix_app_l.
  - intros [H|H]%orb_prop; apply orb_true_intro;
      [left; eapply prefix_app_l; exact H|right; exact (IH H)].
Qed.

(** X5: the heuristic score is one of 5, 8, 10, 15 and 20, so it lies
    between 1 and 20.  The test for [read] comes first: every name that
    contains [read] in any letter case, and so every name that contains
    [readwrite], gets 5; a name gets 10 only when it contains [update] and
    not [read], and 15 only when it contains [delete] or [write] and
    neither [read] nor [update]. *)
Theorem guess_privilege_score_cases (name : string) :
  In (guess_privilege_score name) [5; 8; 10; 15; 20]%Z /\
  (1 <= guess_privilege_score name <= 20)%Z /\
  (contains "read" (lower name) = true -> guess_privilege_score name = 5%Z) /\
  (contains "readwrite" (lower name) = true -> guess_privilege_score name = 5%Z) /\
  (guess_privilege_score name = 10%Z ->
     contains "update" (lower name) = true /\ contains "read" (lower name) = false) /\
  (guess_privilege_score name = 15%Z ->
     (contains "delete" (lower name) = true \/ contains "write" (lower name) = true) /\
     contains "read" (lower name) = false /\ contains "update" (lower name) = false).
Proof.
  pose proof (contains_app_l "read" "write" (lower name)) as Hrw.
  change ("read" ++ "write")%string with "readwrite" in Hrw.
  unfold guess_privilege_score.
  destruct (contains "read" (lower name)) eqn:Eread.
  { cbn. repeat split; try lia; try discriminate; tauto. }
  destruct (contains "readwrite" (lower name)) eqn:Erw; [discriminate (Hrw eq_refl)|].
  destruct (contains "update" (lower name)) eqn:Eup; cbn [orb].
  { cbn. repeat split; try lia; try discriminate; tauto. }
  destruct (contains "delete" (lower name)) eqn:Edel; cbn [orb].
  { cbn. repeat split; try lia; try discriminate; tauto. }
  destruct (contains "write" (lower name)) eqn:Ewr; cbn [orb].
  { cbn. repeat split; try lia; try discriminate; tauto. }
  destruct (contains "all" (lower name) || contains "full" (lower name));
    cbn; repeat split; try lia; try discriminate; tauto.
Qed.

Lemma guess_privilege_score_cases_witness :
  guess_privilege_score "User.ReadWrite.All" = 5%Z.
Proof.
  refine (proj1 (proj2 (proj2 (proj2 (guess_privilege_score_cases "User.ReadWrite.All")))) _).
  reflexivity.
Defined.

Lemma dict_get_set (k name : string) (v : permission) (d : list (string * permission)) :
  dict_get name (dict_set k v d) =
  if String.eqb name k then Some v else dict_get name d.
Proof.
  induction d as [|[k' v'] d IH]; cbn; [reflexivity|].
  destruct (String.eqb_spec k k') as [->|Hne]; cbn.
  - destruct (String.eqb name k'); reflexivity.
  - rewrite IH. destruct (String.eqb_spec name k') as [->|]; [|reflexivity].
    destruct (String.eqb_spec k' k) as [->|]; [contradiction|reflexivity].
Qed.

Lemma keys_dict_set (k : string) (v : permission) (d : list (string * permission)) :
  map fst (dict_set k v d) =
  if existsb (String.eqb k) (map fst d) then map fst d else map fst d ++ [k].
Proof.
  induction d as [|[k' v'] d IH]; cbn; [reflexivity|].
  destruct (String.eqb k k'); cbn; [reflexivity|].
  rewrite IH. destruct (existsb (String.eqb k) (map fst d)); reflexivity.
Qed.

Lemma find_app_first (f : permission -> bool) (l1 l2 : list permission) :
  List.find f (l1 ++ l2) =
  match List.find f l1 with
  | Some x => Some x
  | None => List.find f l2
  end.
Proof.
  induction l1 as [|x l1 IH]; cbn; [reflexivity|].
  destruct (f x); [reflexivity|exact IH].
Qed.

Section fold.
Context (step := fun (d : list (string * permission)) (p : permission) =>
                   dict_set (privilege_name p) p d).

Lemma fold_get (l : list permission) (d : list (string * permission)) (name : string) :
  dict_get name (fold_left step l d) =
  match last_named name l with
  | Some q => Some q
  | None => dict_get name d
  end.
Proof.
  revert d. induction l as [|p l IH]; intros d; [reflexivity|].
  cbn [fold_left]. rewrite IH. unfold last_named. cbn [rev].
  rewrite find_app_first.
  destruct (List.find (fun p0 => String.eqb name (privilege_name p0)) (rev l)); [reflexivity|].
  unfold step. rewrite dict_get_set. cbn [List.find].
  destruct (String.eqb name (privilege_name p)); reflexivity.
Qed.

Lemma fold_keys_nodup (l : list permission) (d : list (string * permission)) :
  NoDup (map fst d) -> NoDup (map fst (fold_left step l d)).
Proof.
  revert d. induction l as [|p l IH]; intros d Hd; [exact Hd|].
  cbn [fold_left]. apply IH. unfold step. rewrite keys_dict_set.
  destruct (existsb (String.eqb (privilege_name p)) (map fst d)) eqn:E; [exact Hd|].
  apply NoDup_app. split; [exact Hd|]. split; [|apply NoDup_singleton].
  intros k Hk ->%list_elem_of_singleton.
  assert (existsb (String.eqb (privilege_name p)) (map fst d) = true); [|congruence].
  apply List.existsb_exists. exists (privilege_name p).
  split; [apply list_elem_of_In; exact Hk|apply String.eqb_refl].
Qed.

Lemma fold_named (l : list permission) (d : list (string * permission)) :
  Forall (fun kv => privilege_name (snd kv) = fst kv) d ->
  Forall (fun kv => privilege_name (snd kv) = fst kv) (fold_left step l d).
Proof.
  revert d. induction l as [|p l IH]; intros d Hd; [exact Hd|].
  cbn [fold_left]. apply IH. unfold step. clear IH.
  induction Hd as [|[k v] d Hk Hd IHd]; cbn.
  - constructor; [reflexivity|constructor].
  - destruct (String.eqb_spec (privilege_name p) k) as [<-|].
    + constructor; [reflexivity|exact Hd].
    + constructor; [exact Hk|exact IHd].
Qed.

End fold.

Lemma dict_get_In (name : string) (d : list (string * permission)) (q : permission) :
  dict_get name d = Some q -> In (name, q) d.
Proof.
  induction d as [|[k v] d IH]; cbn; [discriminate|].
  destruct (String.eqb_spec name k) as [->|]; [intros [= ->]; auto|auto].
Qed.

Lemma In_dict_get (name : string) (d : list (string * permission)) (q : permission) :
  NoDup (map fst d) -> In (name, q) d -> dict_get name d = Some q.
Proof.
  induction d as [|[k v] d IH]; cbn; [tauto|].
  intros Hnd%NoDup_cons [[= -> ->]|Hin].
  - rewrite String.eqb_refl. reflexivity.
  - destruct Hnd as [Hk Hnd]. destruct (String.eqb_spec name k) as [->|]; [|auto].
    destruct Hk. apply list_elem_of_In, in_map_iff. exists (k, q). auto.
Qed.

(** X6: removing duplicates by name leaves a list in which every name
    occurs once; it holds a record for exactly the names that were
    scraped, and the record kept for a name is the last one scraped with
    that name. *)
Theorem final_list_unique (all_permissions : list permission) :
  NoDup (map privilege_name (final_list all_permissions)) /\
  (forall q, In q (final_list all_permissions) <->
             last_named (privilege_name q) all_permissions = Some q) /\
  (forall p, In p all_permissions ->
     exists q, In q (final_list all_permissions) /\
               privilege_name q = privilege_name p) /\
  (forall q, In q (final_list all_permissions) -> In q all_permissions).
Proof.
  unfold final_list, unique.
  pose proof (fold_keys_nodup all_permissions [] (NoDup_nil_2)) as Hnd.
  pose proof (fold_named all_permissions [] (ListDef.Forall_nil _)) as Hnamed.
  pose proof (fun name => fold_get all_permissions [] name) as Hget.
  cbn beta in *.
  set (d := fold_left _ all_permissions []) in *.
  assert (Hnames : map privilege_name (map snd d) = map fst d).
  { clear -Hnamed. induction Hnamed as [|[k v] d Hk _ IH]; cbn in *; [reflexivity|].
    rewrite Hk, IH. reflexivity. }
  assert (Hiff : forall q, In q (map snd d) <->
                           last_named (privilege_name q) all_permissions = Some q).
  { intros q. split.
    - intros ((k & v) & <- & Hin)%in_map_iff. cbn.
      rewrite Forall_forall in Hnamed.
      pose proof (Hnamed (k, v) (proj2 (list_elem_of_In _ _) Hin)) as Hk. cbn in Hk.
      rewrite Hk. pose proof (Hget k) as E.
      rewrite (In_dict_get k d v Hnd Hin) in E.
      destruct (last_named k all_permissions); [congruence|discriminate].
    - intros E. pose proof (Hget (privilege_name q)) as E'. rewrite E in E'.
      apply dict_get_In in E'. apply in_map_iff. exists (privilege_name q, q). auto. }
  split; [rewrite Hnames; exact Hnd|]. split; [exact Hiff|]. split.
  - intros p Hp.
    destruct (last_named (privilege_name p) all_permissions) as [q|] eqn:E.
    + pose proof E as E'. unfold last_named in E'.
      apply List.find_some in E' as [_ Hq%String.eqb_eq].
      exists q. split; [|symmetry; exact Hq]. apply Hiff. rewrite <- Hq. exact E.
    + unfold last_named in E.
      pose proof (List.find_none _ _ E p (proj1 (in_rev _ _) Hp)) as Hno.
      cbn in Hno. rewrite String.eqb_refl in Hno. discriminate.
  - intros q Hq%Hiff. unfold last_named in Hq.
    apply List.find_some in Hq as [Hin _]. apply in_rev. exact Hin.
Qed.

Lemma final_list_unique_witness :
  final_list scraped =
    [Build_permission "roles" "User.Read" "second" 5;
     Build_permission "roles" "Mail.Send" "" 8] /\
  In (Build_permission "roles" "User.Read" "second" 5) (final_list scraped).
Proof.
  split; [reflexivity|].
  refine (proj2 (proj1 (proj2 (final_list_unique scraped))
                   (Build_permission "roles" "User.Read" "second" 5)) _).
  reflexivity.
Defined.

End ScraperSpec.

(** ** Trimming *)
Module StripSpec.
Import PyStr.

Lemma chars_str (l : list ascii) : chars (str l) = l.
Proof. apply list_ascii_of_string_of_list_ascii. Qed.

Lemma str_chars (s : string) : str (chars s) = s.
Proof. apply string_of_list_ascii_of_string. Qed.

Lemma drop_while_split (p : ascii -> bool) (l : list ascii) :
  exists pre, forallb p pre = true /\ l = pre ++ drop_while p l.
Proof.
  induction l as [|c l (pre & Hpre & E)]; [exists []; auto|].
  cbn. destruct (p c) eqn:Hc; [|exists []; auto].
  exists (c :: pre). cbn. rewrite Hc, Hpre. split; [reflexivity|]. f_equal. exact E.
Qed.

Lemma drop_while_head (p : ascii -> bool) (l : list ascii) (c : ascii) (t : list ascii) :
  drop_while p l = c :: t -> p c = false.
Proof.
  induction l as [|d l IH]; cbn; [discriminate|].
  destruct (p d) eqn:Hd; [exact IH|]. intros [= <- _]. exact Hd.
Qed.

Lemma drop_while_snoc (p : ascii -> bool) (l : list ascii) (h : ascii) :
  p h = false -> drop_while p (l ++ [h]) = drop_while p l ++ [h].
Proof.
  intros Hh. induction l as [|d l IH]; cbn; [rewrite Hh; reflexivity|].
  destruct (p d); [exact IH|reflexivity].
Qed.

Lemma drop_while_id (p : ascii -> bool) (l : list ascii) :
  match l with [] => true | c :: _ => negb (p c) end = true -> drop_while p l = l.
Proof.
  destruct l as [|c l]; [reflexivity|]. cbn. destruct (p c); [discriminate|reflexivity].
Qed.

(** What [strip_by] keeps is a middle part of the text; what it drops on
    either side satisfies the predicate. *)
Lemma strip_by_infix (p : ascii -> bool) (s : string) :
  exists pre post,
    forallb p pre = true /\ forallb p post = true /\
    chars s = pre ++ chars (strip_by p s) ++ post.
Proof.
  unfold strip_by. rewrite chars_str.
  destruct (drop_while_split p (chars s)) as (pre & Hpre & E).
  destruct (drop_while_split p (rev (drop_while p (chars s)))) as (post & Hpost & E').
  exists pre, (rev post). split; [exact Hpre|]. split.
  - rewrite forallb_forall in *. intros c Hc. apply Hpost, in_rev. exact Hc.
  - rewrite E at 1. f_equal.
    rewrite <- (rev_involutive (drop_while p (chars s))) at 1.
    rewrite E' at 1. apply rev_app_distr.
Qed.

Lemma strip_by_ends (p : ascii -> bool) (s : string) :
  match chars (strip_by p s) with [] => true | c :: _ => negb (p c) end = true /\
  match rev (chars (strip_by p s)) with [] => true | c :: _ => negb (p c) end = true.
Proof.
  unfold strip_by. rewrite chars_str, rev_involutive.
  set (m := drop_while p (chars s)).
  split.
  - destruct m as [|h t] eqn:Em; [reflexivity|].
    pose proof (drop_while_head p (chars s) h t Em) as Hh.
    cbn [rev]. rewrite (drop_while_snoc p (rev t) h Hh), rev_app_distr. cbn.
    rewrite Hh. reflexivity.
  - destruct (drop_while p (rev m)) as [|c t] eqn:E; [reflexivity|].
    rewrite (drop_while_head p (rev m) c t E). reflexivity.
Qed.

Lemma strip_by_id (p : ascii -> bool) (l : list ascii) :
  match l with [] => true | c :: _ => negb (p c) end = true ->
  match rev l with [] => true | c :: _ => negb (p c) end = true ->
  strip_by p (str l) = str l.
Proof.
  intros Hhead Hlast. unfold strip_by. rewrite chars_str.
  rewrite (drop_while_id p l Hhead), (drop_while_id p (rev l) Hlast), rev_involutive.
  reflexivity.
Qed.

End StripSpec.

(** ** The clean-up of a text value *)
Module FormattingSpec.
Import PyStr Formatting StripSpec.

Lemma flush_short (run : list ascii) :
  flush 2 run = [] \/ exists x, flush 2 run = [x].
Proof.
  destruct run as [|a [|b run]]; cbn; [left; reflexivity|right; eauto..].
Qed.

Lemma flush_one (run : list ascii) : flush 1 run = [] \/ flush 1 run = [" "%char].
Proof. destruct run; cbn; auto. Qed.

Lemma sub_runs_forallb (q p : ascii -> bool) (min : nat) (l run : list ascii) :
  q " "%char = true -> forallb q l = true -> forallb q run = true ->
  forallb q (sub_runs p min run l) = true.
Proof.
  intros Hsp. assert (Hflush : forall run, forallb q run = true ->
                                forallb q (flush min run) = true).
  { intros r Hr. unfold flush. destruct r as [|a r]; [reflexivity|].
    destruct (Nat.leb min (length (a :: r))); [cbn; rewrite Hsp; reflexivity|].
    rewrite forallb_forall in *. intros c Hc. apply Hr, in_rev. exact Hc. }
  revert run. induction l as [|c l IH]; intros run Hl Hrun; cbn [sub_runs].
  - apply Hflush, Hrun.
  - cbn in Hl. apply andb_prop in Hl as [Hc Hl].
    destruct (p c).
    + apply IH; [exact Hl|]. cbn. rewrite Hc, Hrun. reflexivity.
    + rewrite forallb_app. cbn. rewrite (Hflush run Hrun), Hc. cbn.
      apply IH; [exact Hl|reflexivity].
Qed.

Lemma crlf_runs_gone (l run : list ascii) :
  forallb (fun c => negb (is_crlf c)) (sub_runs is_crlf 1 run l) = true.
Proof.
  revert run. induction l as [|c l IH]; intros run; cbn [sub_runs].
  - destruct (flush_one run) as [->| ->]; reflexivity.
  - destruct (is_crlf c) eqn:Hc; [apply IH|].
    rewrite forallb_app. cbn. rewrite Hc, IH.
    destruct (flush_one run) as [->| ->]; reflexivity.
Qed.

Lemma no_adjacent_visible (c : ascii) (l : list ascii) :
  is_space c = false -> no_adjacent_space (c :: l) = no_adjacent_space l.
Proof. intros Hc. destruct l as [|b l]; cbn; [reflexivity|]. rewrite Hc. reflexivity. Qed.

Lemma no_adjacent_cons (a b : ascii) (l : list ascii) :
  no_adjacent_space (a :: b :: l) =
  negb (is_space a && is_space b) && no_adjacent_space (b :: l).
Proof. reflexivity. Qed.

Lemma space_runs_collapsed (l run : list ascii) :
  no_adjacent_space (sub_runs is_space 2 run l) = true.
Proof.
  revert run. induction l as [|c l IH]; intros run; cbn [sub_runs].
  - destruct (flush_short run) as [->|[x ->]]; reflexivity.
  - destruct (is_space c) eqn:Hc; [apply IH|].
    destruct (flush_short run) as [->|[x ->]]; cbn [app].
    + rewrite (no_adjacent_visible c _ Hc). apply IH.
    + rewrite no_adjacent_cons, Hc, andb_false_r. cbn [negb andb].
      rewrite (no_adjacent_visible c _ Hc). apply IH.
Qed.

Lemma no_adjacent_app (a b : list ascii) :
  no_adjacent_space (a ++ b) = true ->
  no_adjacent_space a = true /\ no_adjacent_space b = true.
Proof.
  induction a as [|x a IH]; [auto|].
  destruct a as [|y a].
  - cbn [app]. intros H. split; [reflexivity|].
    destruct b as [|z b]; [reflexivity|]. cbn in H. apply andb_prop in H as [_ H]. exact H.
  - cbn [app]. rewrite !no_adjacent_cons. intros [Hxy H]%andb_prop.
    destruct (IH H) as [Ha Hb]. split; [|exact Hb].
    rewrite Hxy. exact Ha.
Qed.

Lemma visible_spaces (l : list ascii) : forallb is_space l = true -> visible l = [].
Proof.
  induction l as [|c l IH]; cbn; [reflexivity|].
  intros [Hc Hl]%andb_prop. rewrite Hc. cbn. exact (IH Hl).
Qed.

Lemma visible_flush (min : nat) (run : list ascii) :
  forallb is_space run = true -> visible (flush min run) = [].
Proof.
  intros Hrun. unfold flush. destruct run as [|a r]; [reflexivity|].
  destruct (Nat.leb min (length (a :: r))); [reflexivity|].
  apply visible_spaces. rewrite forallb_forall in *.
  intros c Hc. apply Hrun, in_rev. exact Hc.
Qed.

Lemma visible_sub_runs (p : ascii -> bool) (min : nat) (l run : list ascii) :
  (forall c, p c = true -> is_space c = true) ->
  forallb is_space run = true ->
  visible (sub_runs p min run l) = visible l.
Proof.
  intros Hp. revert run. induction l as [|c l IH]; intros run Hrun; cbn [sub_runs].
  - apply visible_flush, Hrun.
  - destruct (p c) eqn:Hc.
    + rewrite IH by (cbn; rewrite (Hp c Hc), Hrun; reflexivity).
      cbn. rewrite (Hp c Hc). reflexivity.
    + unfold visible at 1. rewrite List.filter_app. fold (visible (flush min run)).
      rewrite (visible_flush min run Hrun). cbn.
      fold (visible (sub_runs p min [] l)). rewrite IH by reflexivity. reflexivity.
Qed.

Lemma crlf_is_space (c : ascii) : is_crlf c = true -> is_space c = true.
Proof.
  unfold is_crlf. intros [H|H]%orb_prop; apply Ascii.eqb_eq in H; subst; reflexivity.
Qed.

Lemma sub_runs_crlf_id (l : list ascii) :
  forallb (fun c => negb (is_crlf c)) l = true -> sub_runs is_crlf 1 [] l = l.
Proof.
  induction l as [|c l IH]; cbn; [reflexivity|].
  intros [Hc Hl]%andb_prop. apply negb_true_iff in Hc. rewrite Hc. cbn.
  rewrite (IH Hl). reflexivity.
Qed.

Lemma sub_runs_space_id (l run : list ascii) :
  length run <= 1 -> forallb is_space run = true ->
  no_adjacent_space (rev run ++ l) = true ->
  sub_runs is_space 2 run l = rev run ++ l.
Proof.
  revert run. induction l as [|c l IH]; intros run Hlen Hrun Hadj; cbn [sub_runs].
  - rewrite app_nil_r. destruct run as [|a [|b run]]; cbn in *; [reflexivity..|lia].
  - destruct (is_space c) eqn:Hc.
    + destruct run as [|a [|b run]]; cbn in Hlen; [|exfalso|lia].
      * apply (IH [c]); [cbn; lia|cbn; rewrite Hc; reflexivity|exact Hadj].
      * cbn in Hrun, Hadj. rewrite andb_true_r in Hrun. rewrite Hrun, Hc in Hadj.
        discriminate.
    + assert (E : flush 2 run = rev run)
        by (destruct run as [|a [|b run]]; cbn in *; [reflexivity..|lia]).
      rewrite E. f_equal. f_equal. apply (IH []); [cbn; lia|reflexivity|].
      cbn [rev app]. apply no_adjacent_app in Hadj as [_ Hadj].
      rewrite (no_adjacent_visible c l Hc) in Hadj. exact Hadj.
Qed.

(** X7: the cleaned value holds no carriage return and no line feed, no
    two neighbouring white-space characters, and neither starts nor ends
    with white space. *)
Theorem clean_text_clean (value : string) :
  clean (chars (clean_text value)) = true.
Proof.
  unfold clean, clean_text.
  set (v2 := sub_runs is_space 2 [] (sub_runs is_crlf 1 [] (chars value))).
  destruct (strip_by_infix is_space (str v2)) as (pre & post & _ & _ & E).
  rewrite chars_str in E. fold (strip (str v2)) in E.
  assert (H1 : forallb (fun c => negb (is_crlf c)) v2 = true).
  { apply sub_runs_forallb; [reflexivity|apply crlf_runs_gone|reflexivity]. }
  assert (H2 : no_adjacent_space v2 = true) by apply space_runs_collapsed.
  remember (chars (strip (str v2))) as mid eqn:Emid.
  rewrite E in H1, H2.
  rewrite !forallb_app in H1. apply andb_prop in H1 as [_ [H1 _]%andb_prop].
  apply no_adjacent_app in H2 as [_ [H2 _]%no_adjacent_app].
  rewrite H1, H2. cbn [andb]. unfold trimmed, starts_visible.
  destruct (strip_by_ends is_space (str v2)) as [Hh Hl]. fold (strip (str v2)) in Hh, Hl.
  rewrite <- Emid in Hh, Hl. rewrite Hh, Hl. reflexivity.
Qed.

(** X8: cleaning changes white space only: the characters that are not
    white space are the same, in the same order, before and after. *)
Theorem clean_text_visible (value : string) :
  visible (chars (clean_text value)) = visible (chars value).
Proof.
  unfold clean_text.
  set (v1 := sub_runs is_crlf 1 [] (chars value)).
  set (v2 := sub_runs is_space 2 [] v1).
  destruct (strip_by_infix is_space (str v2)) as (pre & post & Hpre & Hpost & E).
  rewrite chars_str in E. fold (strip (str v2)) in E.
  assert (Hv2 : visible v2 = visible (chars value)).
  { unfold v2, v1. rewrite visible_sub_runs by auto.
    apply visible_sub_runs; [apply crlf_is_space|reflexivity]. }
  remember (chars (strip (str v2))) as mid eqn:Emid. clear Emid.
  rewrite E in Hv2. rewrite <- Hv2. unfold visible. rewrite !List.filter_app.
  fold (visible pre) (visible post).
  rewrite (visible_spaces pre Hpre), (visible_spaces post Hpost), app_nil_r. reflexivity.
Qed.

(** X9: a value that is already clean is returned as it is, and cleaning
    a second time changes nothing. *)
Theorem clean_text_idempotent (value : string) :
  (clean (chars value) = true -> clean_text value = value) /\
  clean_text (clean_text value) = clean_text value.
Proof.
  assert (Hfix : forall v, clean (chars v) = true -> clean_text v = v).
  { intros v Hv. unfold clean in Hv.
    apply andb_prop in Hv as [[H1 H2]%andb_prop [Hh Hl]%andb_prop].
    unfold clean_text. rewrite (sub_runs_crlf_id _ H1).
    rewrite (sub_runs_space_id (chars v) []); [|cbn; lia|reflexivity|exact H2].
    cbn [rev app]. unfold strip.
    rewrite (strip_by_id is_space (chars v) Hh Hl). apply str_chars. }
  split; [apply Hfix|]. apply Hfix, clean_text_clean.
Qed.

Lemma clean_text_idempotent_witness :
  clean_text "Reads mail, in all folders" = "Reads mail, in all folders".
Proof.
  refine (proj1 (clean_text_idempotent "Reads mail, in all folders") _). reflexivity.
Defined.

End FormattingSpec.

(** ** Replies in the format the prompts ask for *)
Module ReplySpec.
Import PyStr Csv Parser ReplyFormat Samples MoreSamples StripSpec.

Lemma chars_app (a b : string) : chars (a ++ b) = chars a ++ chars b.
Proof. induction a as [|c a IH]; cbn; [reflexivity|]. f_equal. exact IH. Qed.

(** *** Replies without a comma *)

Lemma add_char_single (c : ascii) (st : parser_state) (r r' : reader) :
  fields r = [] -> st <> START_FIELD -> st <> EAT_CRNL ->
  option_map (set_state st) (parse_add_char (Ch c) r) = Some r' -> single r'.
Proof.
  intros Hf H1 H2. unfold parse_add_char.
  destruct (field_limit <=? field_len r)%N; cbn; [discriminate|].
  intros [= <-]. unfold single. cbn. destruct st; congruence.
Qed.

Lemma step_single (c : ascii) (r r' : reader) :
  Ascii.eqb c delimiter = false -> single r ->
  parse_process_char (Ch c) r = Some r' -> single r'.
Proof.
  intros Hc Hr. unfold parse_process_char, single in *.
  destruct r as [st f n fs]. cbn in *.
  destruct st; cbn in *; try contradiction; subst; unfold start_field; cbn;
    rewrite ?Hc;
    repeat match goal with
           | |- context [if ?b then _ else _] => destruct b; cbn
           end;
    try (intros [= <-]; cbn; auto; lia);
    try discriminate;
    try (intros H; eapply (add_char_single c); [| | |exact H]; cbn; congruence);
    try (unfold parse_add_char; cbn;
         destruct (field_limit <=? n)%N; [discriminate|intros [= <-]; reflexivity]).
Qed.

Lemma eol_single (r r' : reader) :
  single r -> parse_process_char EOL r = Some r' ->
  length (fields r') <= 1 /\ (state r' = START_RECORD \/ line_start r').
Proof.
  unfold parse_process_char, single, line_start. destruct r as [st f n fs]. cbn.
  destruct st; cbn; try contradiction; intros Hr; subst;
    try (intros [= <-]; cbn; auto; lia).
Qed.

Lemma process_line_single (line : list ascii) (r r' : reader) :
  forallb (not_char delimiter) line = true -> single r ->
  process_line line r = Some r' ->
  length (fields r') <= 1 /\ (state r' = START_RECORD \/ line_start r').
Proof.
  revert r. induction line as [|c line IH]; intros r Hline Hr; cbn [process_line].
  - apply eol_single, Hr.
  - cbn in Hline. apply andb_prop in Hline as [Hc Hline].
    destruct (parse_process_char (Ch c) r) as [r1|] eqn:E; [|discriminate].
    apply IH; [exact Hline|]. eapply step_single; [|exact Hr|exact E].
    unfold not_char in Hc. apply negb_true_iff in Hc. exact Hc.
Qed.

Lemma line_start_single (r : reader) : line_start r -> single r.
Proof. intros [Hf [Hs|Hs]]; unfold single; rewrite Hs; exact Hf. Qed.

Lemma read_rows_single (ls : list (list ascii)) (r : reader) :
  Forall (fun line => forallb (not_char delimiter) line = true) ls ->
  line_start r ->
  Forall (fun row : row => length row <= 1) (fst (read_rows ls r)).
Proof.
  intros Hls. revert r. induction Hls as [|line ls Hline _ IH]; intros r Hr; cbn [read_rows].
  - destruct Hr as [Hf _].
    destruct (negb (field_len r =? 0)%N || parser_state_eqb (state r) IN_QUOTED_FIELD);
      cbn; [|constructor].
    constructor; [|constructor]. rewrite Hf. cbn. lia.
  - destruct (process_line line r) as [r'|] eqn:E; [|constructor].
    destruct (process_line_single line r r' Hline (line_start_single r Hr) E) as [Hlen Hst].
    destruct (parser_state_eqb (state r') START_RECORD) eqn:Es.
    + specialize (IH parse_reset (conj eq_refl (or_introl eq_refl))).
      destruct (read_rows ls parse_reset) as [rs e]. cbn in *.
      constructor; [rewrite length_rev; exact Hlen|exact IH].
    + apply IH. destruct Hst as [Hst|Hst]; [|exact Hst].
      rewrite Hst in Es. discriminate.
Qed.

Lemma lines_from_forallb (q : ascii -> bool) (l cur : list ascii) :
  forallb q l = true -> forallb q cur = true ->
  Forall (fun line => forallb q line = true) (lines_from cur l).
Proof.
  assert (Hrev : forall x, forallb q x = true -> forallb q (rev x) = true).
  { intros x Hx. rewrite forallb_forall in *. intros c Hc. apply Hx, in_rev. exact Hc. }
  revert cur. induction l as [|c l IH]; intros cur Hl Hcur; cbn [lines_from].
  - destruct cur; constructor; [apply Hrev; exact Hcur|constructor].
  - cbn in Hl. apply andb_prop in Hl as [Hc Hl].
    assert (Hcc : forallb q (c :: cur) = true) by (cbn; rewrite Hc, Hcur; reflexivity).
    destruct (Ascii.eqb c "010").
    + constructor; [apply Hrev; exact Hcc|]. apply IH; [exact Hl|reflexivity].
    + apply IH; assumption.
Qed.

Lemma scan_rows_single (rows : list row) :
  Forall (fun row : row => length row <= 1) rows -> scan_rows rows = None.
Proof.
  induction 1 as [|r rows Hr _ IH]; [reflexivity|].
  cbn [scan_rows]. destruct r as [|f0 [|f1 fs]]; cbn in Hr; try lia; [exact IH|].
  destruct (is_header f0); [exact IH|]. cbn. exact IH.
Qed.

Lemma strip_fences_forallb (q : ascii -> bool) (text : string) :
  forallb q (chars text) = true -> forallb q (chars (strip_fences text)) = true.
Proof.
  intros H. unfold strip_fences.
  destruct (startswith fence text && endswith fence text); [|exact H].
  unfold strip_chars.
  destruct (strip_by_infix (fun c => mem_char c fence_chars) text) as (pre & post & _ & _ & E).
  rewrite E, !forallb_app in H.
  apply andb_prop in H as [_ [H _]%andb_prop]. exact H.
Qed.

(** X10: a reply without any comma gives an absent score and, as
    description, the whole text (without its fence when it has one): the
    reader's rows then have at most one field, so the structured pass
    finds no data row, and there is no comma to split at. *)
Theorem no_comma_reply (text : string) :
  forallb (not_char delimiter) (chars text) = true ->
  parse_reply text = (None, strip_fences text).
Proof.
  intros H%strip_fences_forallb. unfold parse_reply, parse_csv, reader_rows, lines.
  rewrite scan_rows_single.
  - unfold parse_fallback.
    assert (E : split_first "," (strip_fences text) = None).
    { revert H. generalize (strip_fences text). intros s.
      induction s as [|c s IH]; cbn; [reflexivity|].
      intros [Hc Hs]%andb_prop. unfold not_char, delimiter in Hc.
      apply negb_true_iff in Hc. rewrite Hc, (IH Hs). reflexivity. }
    rewrite E. reflexivity.
  - apply read_rows_single; [|split; auto].
    apply lines_from_forallb; [exact H|reflexivity].
Qed.

Lemma no_comma_reply_witness :
  parse_reply "Allows the app to read the profile." =
    (None, "Allows the app to read the profile.").
Proof. exact (no_comma_reply "Allows the app to read the profile." eq_refl). Defined.

(** *** Quoted descriptions *)

Lemma lines_from_app (pre cur l : list ascii) :
  forallb (not_char "010") pre = true ->
  lines_from cur (pre ++ l) = lines_from (rev pre ++ cur) l.
Proof.
  revert cur. induction pre as [|c pre IH]; intros cur Hpre; [reflexivity|].
  cbn in Hpre. apply andb_prop in Hpre as [Hc Hpre].
  unfold not_char in Hc. apply negb_true_iff in Hc.
  cbn [app lines_from]. rewrite Hc, (IH _ Hpre). cbn [rev]. rewrite <- app_assoc. reflexivity.
Qed.

Lemma process_line_app (a b : list ascii) (r : reader) :
  process_line (a ++ b) r =
  match process_chars a r with
  | Some r' => process_line b r'
  | None => None
  end.
Proof.
  revert r. induction a as [|c a IH]; intros r; cbn; [reflexivity|].
  destruct (parse_process_char (Ch c) r); [apply IH|reflexivity].
Qed.

Lemma process_chars_app (a b : list ascii) (r : reader) :
  process_chars (a ++ b) r =
  match process_chars a r with
  | Some r' => process_chars b r'
  | None => None
  end.
Proof.
  revert r. induction a as [|c a IH]; intros r; cbn; [reflexivity|].
  destruct (parse_process_char (Ch c) r); [apply IH|reflexivity].
Qed.

(** One more character inside a quoted field. *)
Lemma quoted_char (c : ascii) (f : list ascii) (n : N) (fs : list string) :
  (n < field_limit)%N -> Ascii.eqb c quotechar = false ->
  parse_process_char (Ch c) (Build_reader IN_QUOTED_FIELD f n fs) =
  Some (Build_reader IN_QUOTED_FIELD (c :: f) (n + 1) fs).
Proof.
  intros Hn Hc. cbn. rewrite Hc. unfold parse_add_char. cbn.
  destruct (N.leb_spec field_limit n); [lia|reflexivity].
Qed.

(** A doubled quote inside a quoted field is one quote. *)
Lemma quoted_quote (f : list ascii) (n : N) (fs : list string) :
  (n < field_limit)%N ->
  process_chars [quotechar; quotechar] (Build_reader IN_QUOTED_FIELD f n fs) =
  Some (Build_reader IN_QUOTED_FIELD (quotechar :: f) (n + 1) fs).
Proof.
  intros Hn. cbn. unfold parse_add_char. cbn.
  destruct (N.leb_spec field_limit n); [lia|reflexivity].
Qed.

(** From inside a quoted field, the escaped text and the closing quote
    end the record with the text as its last field, also when the text
    runs over several lines. *)
Lemma quoted_tail (d : list ascii) :
  forall (cur : list ascii) (r0 : reader) (f : list ascii) (n : N) (fs : list string),
    process_chars (rev cur) r0 = Some (Build_reader IN_QUOTED_FIELD f n fs) ->
    (n + N.of_nat (length d) <= field_limit)%N ->
    read_rows (lines_from cur (escape_quotes d ++ [quotechar])) r0 =
    ([rev (str (rev f ++ d) :: fs)], false).
Proof.
  induction d as [|c d IH]; intros cur r0 f n fs Hcur Hlen.
  - cbn [escape_quotes app lines_from]. change (Ascii.eqb quotechar "010") with false.
    cbn [lines_from read_rows]. cbn [rev]. rewrite process_line_app, Hcur.
    rewrite app_nil_r. reflexivity.
  - cbn [length] in Hlen. cbn [escape_quotes].
    destruct (Ascii.eqb_spec c quotechar) as [->|Hq].
    + change (quotechar :: quotechar :: escape_quotes d) with
        ([quotechar; quotechar] ++ escape_quotes d).
      rewrite <- app_assoc, lines_from_app by reflexivity.
      rewrite (IH _ r0 (quotechar :: f) (n + 1)%N fs).
      * cbn [rev]. rewrite <- app_assoc. reflexivity.
      * rewrite rev_app_distr. change (rev (rev [quotechar; quotechar])) with [quotechar; quotechar].
        rewrite process_chars_app, Hcur. apply quoted_quote. lia.
      * lia.
    + assert (Hstep : parse_process_char (Ch c) (Build_reader IN_QUOTED_FIELD f n fs) =
                      Some (Build_reader IN_QUOTED_FIELD (c :: f) (n + 1) fs)).
      { apply quoted_char; [lia|]. apply Ascii.eqb_neq. exact Hq. }
      cbn [app lines_from]. destruct (Ascii.eqb_spec c "010") as [->|Hnl].
      * cbn [read_rows]. cbn [rev]. rewrite process_line_app, Hcur.
        cbn [process_line]. rewrite Hstep. cbn [parse_process_char state parser_state_eqb].
        rewrite (IH [] _ ("010"%char :: f) (n + 1)%N fs); [|reflexivity|lia].
        cbn [rev]. rewrite <- app_assoc. reflexivity.
      * rewrite (IH (c :: cur) r0 (c :: f) (n + 1)%N fs).
        -- cbn [rev]. rewrite <- app_assoc. reflexivity.
        -- cbn [rev]. rewrite process_chars_app, Hcur. cbn [process_chars].
           rewrite Hstep. reflexivity.
        -- lia.
Qed.

(** A reply on one logical record: a prefix without line feed that opens
    a quoted field, then the escaped description and the closing quote. *)
Lemma quoted_record (p d : list ascii) (fs : list string) :
  forallb (not_char "010") p = true ->
  process_chars p parse_reset = Some (Build_reader IN_QUOTED_FIELD [] 0 fs) ->
  (N.of_nat (length d) <= field_limit)%N ->
  reader_rows (str (p ++ escape_quotes d ++ [quotechar])) = ([rev (str d :: fs)], false).
Proof.
  intros Hp Hproc Hlen. unfold reader_rows, lines. rewrite chars_str.
  rewrite lines_from_app by exact Hp. rewrite app_nil_r.
  rewrite (quoted_tail d (rev p) parse_reset [] 0%N fs); [reflexivity| |lia].
  rewrite rev_involutive. exact Hproc.
Qed.

(** The same after a first line that is a record of its own. *)
Lemma quoted_record_after_line (h p d : list ascii) (r1 : reader) (fs : list string) :
  forallb (not_char "010") h = true ->
  process_line (h ++ ["010"%char]) parse_reset = Some r1 ->
  state r1 = START_RECORD ->
  forallb (not_char "010") p = true ->
  process_chars p parse_reset = Some (Build_reader IN_QUOTED_FIELD [] 0 fs) ->
  (N.of_nat (length d) <= field_limit)%N ->
  reader_rows (str (h ++ "010"%char :: p ++ escape_quotes d ++ [quotechar])) =
  ([rev (fields r1); rev (str d :: fs)], false).
Proof.
  intros Hh Hline Hst Hp Hproc Hlen. unfold reader_rows, lines. rewrite chars_str.
  rewrite lines_from_app by exact Hh. rewrite app_nil_r.
  cbn [lines_from]. change (Ascii.eqb "010" "010") with true. cbn iota.
  cbn [rev]. rewrite rev_involutive. cbn [read_rows]. rewrite Hline, Hst. cbn [parser_state_eqb].
  pose proof (quoted_record p d fs Hp Hproc Hlen) as E.
  unfold reader_rows, lines in E. rewrite chars_str in E. rewrite E. reflexivity.
Qed.

Lemma strip_fences_plain (c : ascii) (s : string) :
  Ascii.eqb c "`" = false -> strip_fences (String c s) = String c s.
Proof.
  intros Hc. unfold strip_fences, startswith, fence. cbn [String.prefix].
  destruct (ascii_dec "`" c) as [E|_]; [|reflexivity].
  subst c. discriminate Hc.
Qed.

Lemma quoted_text (s : string) (d : string) :
  (s ++ "," ++ csv_quote d)%string =
  str ((chars s ++ [delimiter; quotechar]) ++ escape_quotes (chars d) ++ [quotechar]).
Proof.
  rewrite <- (str_chars (s ++ "," ++ csv_quote d)). f_equal.
  rewrite !chars_app. unfold csv_quote. rewrite chars_str, <- app_assoc. reflexivity.
Qed.

(** The two-field parser on a score text followed by a comma and the
    quoted description. *)
Lemma two_field_quoted (c : ascii) (s' : string) (n : Z) (d : string) :
  let s := String c s' in
  Ascii.eqb c "`" = false ->
  forallb (not_char "010") (chars s ++ [delimiter; quotechar]) = true ->
  process_chars (chars s ++ [delimiter; quotechar]) parse_reset =
    Some (Build_reader IN_QUOTED_FIELD [] 0 [s]) ->
  is_header s = false ->
  py_int (strip s) = Some n ->
  (N.of_nat (length (chars d)) <= field_limit)%N ->
  parse_reply (s ++ "," ++ csv_quote d) = (Some n, strip d) /\
  parse_reply (header_line ++ nl ++ s ++ "," ++ csv_quote d) = (Some n, strip d).
Proof.
  intros s Hc Hnl Hproc Hhead Hint Hlen. split.
  - unfold parse_reply.
    change (s ++ "," ++ csv_quote d)%string with (String c (s' ++ "," ++ csv_quote d)).
    rewrite (strip_fences_plain c _ Hc).
    change (String c (s' ++ "," ++ csv_quote d)) with (s ++ "," ++ csv_quote d)%string.
    unfold parse_csv. rewrite quoted_text, (quoted_record _ _ [s] Hnl Hproc Hlen).
    cbn [fst rev app]. rewrite str_chars.
    change (@nil (list string)) with (@nil row).
    rewrite (ParserSpec.scan_rows_data_row s d [] [] Hhead), Hint. reflexivity.
  - unfold parse_reply.
    change (header_line ++ nl ++ s ++ "," ++ csv_quote d)%string with
      (String "s" ("uggested_privilege_score,extended_description" ++ nl ++
                   s ++ "," ++ csv_quote d)).
    rewrite (strip_fences_plain "s" _ eq_refl).
    change (String "s" ("uggested_privilege_score,extended_description" ++ nl ++
                        s ++ "," ++ csv_quote d))
      with (header_line ++ nl ++ s ++ "," ++ csv_quote d)%string.
    unfold parse_csv.
    assert (E : (header_line ++ nl ++ s ++ "," ++ csv_quote d)%string =
                str (chars header_line ++ "010"%char ::
                     (chars s ++ [delimiter; quotechar]) ++
                     escape_quotes (chars d) ++ [quotechar])).
    { rewrite <- (str_chars (header_line ++ nl ++ s ++ "," ++ csv_quote d)). f_equal.
      rewrite chars_app. f_equal. rewrite chars_app. cbn [nl chars list_ascii_of_string app].
      f_equal. fold (chars (s ++ "," ++ csv_quote d)).
      rewrite quoted_text, chars_str. reflexivity. }
    rewrite E.
    rewrite (quoted_record_after_line (chars header_line) _ (chars d)
               (Build_reader START_RECORD [] 0
                  ["extended_description"; "suggested_privilege_score"]) [s]
               eq_refl eq_refl eq_refl Hnl Hproc Hlen).
    cbn [fst fields rev app]. rewrite str_chars.
    change (scan_rows [["suggested_privilege_score"; "extended_description"]; [s; d]])
      with (scan_rows ([["suggested_privilege_score"; "extended_description"]] ++ [[s; d]])).
    rewrite ParserSpec.scan_rows_skipped by (repeat constructor).
    change (@nil (list string)) with (@nil row).
    rewrite (ParserSpec.scan_rows_data_row s d [] [] Hhead), Hint. reflexivity.
Qed.

(** X11: a reply in the format the prompt asks for is read back exactly.
    For a score between 1 and 20 and any description, with commas, line
    breaks and quotes in it, the reply made of the score, a comma and the
    description in double quotes with its quotes doubled parses to that
    score and the description trimmed, with or without the header line
    before it.  The description may be as long as the reader's field
    limit allows. *)
Theorem two_field_round_trip (n : Z) (d : string) :
  (1 <= n <= 20)%Z ->
  (N.of_nat (length (chars d)) <= field_limit)%N ->
  parse_reply (py_str_int n ++ "," ++ csv_quote d) = (Some n, strip d) /\
  parse_reply (header_line ++ nl ++ py_str_int n ++ "," ++ csv_quote d) = (Some n, strip d).
Proof.
  intros Hn Hlen. apply TwoPassSpec.small_score_cases in Hn. cbn [In] in Hn.
  repeat (destruct Hn as [<-|Hn];
          [match goal with
           | |- context [py_str_int ?k] =>
               let t := eval vm_compute in (py_str_int k) in
               match t with
               | String ?c ?s' =>
                   exact (two_field_quoted c s' k d eq_refl eq_refl eq_refl eq_refl eq_refl Hlen)
               end
           end|]).
  destruct Hn.
Qed.

Lemma two_field_round_trip_witness :
  parse_reply (py_str_int 7 ++ "," ++ csv_quote sample_description) =
    (Some 7%Z, strip sample_description).
Proof.
  refine (proj1 (two_field_round_trip 7 sample_description _ _)).
  - lia.
  - vm_compute. discriminate.
Defined.

Lemma quoted_only (d : string) :
  (N.of_nat (length (chars d)) <= field_limit)%N ->
  reader_rows (csv_quote d) = ([[d]], false).
Proof.
  intros Hlen. unfold csv_quote.
  change (quotechar :: escape_quotes (chars d) ++ [quotechar])
    with ([quotechar] ++ escape_quotes (chars d) ++ [quotechar]).
  rewrite (quoted_record [quotechar] (chars d) [] eq_refl eq_refl Hlen).
  cbn [rev app]. rewrite str_chars. reflexivity.
Qed.

(** X12: the description parser of the two-pass script reads a quoted
    description back, trimmed, with or without the header line before it,
    unless the description itself starts, in any letter case and after
    leading white space, with the word [extended]: such a description is
    taken for the header, and the raw reply, quotes included, is returned
    in its place. *)
Theorem description_round_trip (d : string) :
  (N.of_nat (length (chars d)) <= field_limit)%N ->
  (TwoPass.is_header d = false ->
     TwoPass.parse_description (csv_quote d) = strip d /\
     TwoPass.parse_description ("extended_description" ++ nl ++ csv_quote d) = strip d) /\
  (TwoPass.is_header d = true ->
     TwoPass.parse_description (csv_quote d) = csv_quote d).
Proof.
  intros Hlen.
  assert (Hplain : strip_fences (csv_quote d) = csv_quote d)
    by (unfold csv_quote; cbn [str string_of_list_ascii]; apply strip_fences_plain; reflexivity).
  split; intros Hhead.
  - split.
    + unfold TwoPass.parse_description. rewrite Hplain, (quoted_only d Hlen).
      cbn [fst TwoPass.scan_desc_rows]. rewrite Hhead. reflexivity.
    + unfold TwoPass.parse_description.
      change ("extended_description" ++ nl ++ csv_quote d)%string with
        (String "e" ("xtended_description" ++ nl ++ csv_quote d)).
      rewrite (strip_fences_plain "e" _ eq_refl).
      change (String "e" ("xtended_description" ++ nl ++ csv_quote d))
        with ("extended_description" ++ nl ++ csv_quote d)%string.
      assert (E : ("extended_description" ++ nl ++ csv_quote d)%string =
                  str (chars "extended_description" ++ "010"%char ::
                       [quotechar] ++ escape_quotes (chars d) ++ [quotechar])).
      { rewrite <- (str_chars ("extended_description" ++ nl ++ csv_quote d)). f_equal.
        rewrite chars_app. f_equal. rewrite chars_app. cbn [nl chars list_ascii_of_string app].
        f_equal. unfold csv_quote. apply chars_str. }
      rewrite E.
      rewrite (quoted_record_after_line (chars "extended_description") [quotechar] (chars d)
                 (Build_reader START_RECORD [] 0 ["extended_description"]) []
                 eq_refl eq_refl eq_refl eq_refl eq_refl Hlen).
      cbn [fst fields rev app]. rewrite str_chars.
      change (TwoPass.scan_desc_rows [["extended_description"]; [d]])
        with (TwoPass.scan_desc_rows [[d]]).
      cbn [TwoPass.scan_desc_rows]. rewrite Hhead. reflexivity.
  - unfold TwoPass.parse_description. rewrite Hplain, (quoted_only d Hlen).
    cbn [fst TwoPass.scan_desc_rows]. rewrite Hhead. reflexivity.
Qed.

Lemma description_round_trip_witness :
  TwoPass.parse_description (csv_quote sample_description) = strip sample_description /\
  TwoPass.parse_description (csv_quote "Extended access to mail") =
    csv_quote "Extended access to mail".
Proof.
  split.
  - refine (proj1 (proj1 (description_round_trip sample_description _) _)).
    + vm_compute. discriminate.
    + vm_compute. reflexivity.
  - refine (proj2 (description_round_trip "Extended access to mail" _) _).
    + vm_compute. discriminate.
    + vm_compute. reflexivity.
Defined.

(** *** Fenced replies *)







End ReplySpec.

(** ** The requests the event loop sends *)
Module TraceSpec.
Import Parser Executor Orchestrator Trace Samples.

Lemma row_requests_snoc (i j a : nat) (evs : list net_event) :
  row_requests i (evs ++ [Request j a]) =
  row_requests i evs ++ (if Nat.eqb j i then [a] else []).
Proof.
  unfold row_requests. rewrite flat_map_app. cbn. rewrite app_nil_r. reflexivity.
Qed.

Lemma posts_from_0 (e : nat -> http_outcome) :
  posts_from e 0 = attempts_of (fst (get_extended_description e)).
Proof. reflexivity. Qed.

Lemma posts_success (e : nat -> http_outcome) (k : nat) (r : result) :
  k <= 2 -> attempt_once (e k) = inl r -> posts_from e k = seq 0 (S k).
Proof.
  intros Hk E. unfold posts_from. rewrite (seq_S k 0). f_equal.
  destruct k as [|[|[|k]]]; [| | |lia]; cbn [Nat.sub seq run_attempts]; rewrite E; reflexivity.
Qed.

Lemma posts_failed_last (e : nat -> http_outcome) (x : string) :
  attempt_once (e 2) = inr x -> posts_from e 2 = seq 0 3.
Proof.
  intros E. unfold posts_from. cbn [Nat.sub seq run_attempts]. rewrite E. reflexivity.
Qed.

Lemma posts_failed (e : nat -> http_outcome) (k : nat) (x : string) :
  k <= 1 -> attempt_once (e k) = inr x -> posts_from e k = posts_from e (S k).
Proof.
  intros Hk E. unfold posts_from. rewrite (seq_S k 0), <- app_assoc. f_equal.
  destruct k as [|[|k]]; [| |lia].
  - change (seq 0 (3 - 0)) with (0 :: seq 1 (3 - 1)).
    rewrite (ExecutorSpec.run_attempts_failed e 0 _ x E) by discriminate. reflexivity.
  - change (seq 1 (3 - 1)) with (1 :: seq 2 (3 - 2)).
    rewrite (ExecutorSpec.run_attempts_failed e 1 _ x E) by discriminate. reflexivity.
Qed.

Lemma posts_shape (e : nat -> http_outcome) :
  posts_from e 0 = [0] \/ posts_from e 0 = [0; 1] \/ posts_from e 0 = [0; 1; 2].
Proof.
  rewrite posts_from_0, ExecutorSpec.get_extended_description_cases.
  destruct (attempt_once (e 0)); [auto|].
  destruct (attempt_once (e 1)); [auto|].
  destruct (attempt_once (e 2)); auto.
Qed.

Section trace.
Context (env : nat -> nat -> http_outcome).

(** Task [i] changes state and nothing is sent. *)
Lemma trace_move (s : system) (i : nat) (t' : task) (c : nat)
    (done : list (nat * option result)) :
  trace_inv env s ->
  i < length (tasks s) ->
  sent (env i) t' (row_requests i (net s)) ->
  trace_inv env {| sem := c; tasks := <[i := t']> (tasks s); completed := done; net := net s |}.
Proof.
  intros Hinv Hi Ht' j. cbn [tasks net].
  destruct (decide (i = j)) as [<-|Hne].
  - rewrite list_lookup_insert_eq by exact Hi. exact Ht'.
  - rewrite list_lookup_insert_ne by done. apply Hinv.
Qed.

(** Task [i] sends attempt [a] and changes state. *)
Lemma trace_send (s : system) (i a : nat) (t' : task) (c : nat) :
  trace_inv env s ->
  i < length (tasks s) ->
  sent (env i) t' (row_requests i (net s) ++ [a]) ->
  trace_inv env {| sem := c; tasks := <[i := t']> (tasks s); completed := completed s;
                   net := net s ++ [Request i a] |}.
Proof.
  intros Hinv Hi Ht' j. cbn [tasks net]. rewrite row_requests_snoc.
  destruct (decide (i = j)) as [<-|Hne].
  - rewrite list_lookup_insert_eq by exact Hi. rewrite Nat.eqb_refl. exact Ht'.
  - rewrite list_lookup_insert_ne by done.
    destruct (Nat.eqb_spec i j); [contradiction|]. rewrite app_nil_r. apply Hinv.
Qed.

Lemma step_trace (i : nat) (s s' : system) :
  trace_inv env s -> step env i s = Some s' -> trace_inv env s'.
Proof.
  intros Hinv Hstep. unfold step in Hstep.
  pose proof (Hinv i) as Ht.
  destruct (tasks s !! i) as [t|] eqn:Hi; [|discriminate].
  pose proof (lookup_lt_Some _ _ _ Hi) as Hlt.
  destruct t as [|k|k|r]; cbn in Ht.
  - destruct (sem s) as [|c]; [discriminate|]. simplify_eq.
    apply (trace_send s i 0 (Posting 0) c Hinv Hlt). rewrite Ht. cbn. auto with lia.
  - destruct Ht as (Hk & Hsent & Hposts).
    destruct (attempt_once (env i k)) as [r|x] eqn:E.
    + simplify_eq. apply (trace_move s i (Done (Some r)) _ _ Hinv Hlt). cbn.
      rewrite Hsent, <- Hposts. symmetry. eapply posts_success; eassumption.
    + destruct (Nat.eqb_spec k 2) as [->|Hne]; simplify_eq.
      * apply (trace_move s i (Done (Some (failed x))) _ _ Hinv Hlt). cbn.
        rewrite Hsent, <- Hposts. symmetry. eapply posts_failed_last; eassumption.
      * apply (trace_move s i (Sleeping k) _ _ Hinv Hlt). cbn.
        split; [lia|]. split; [exact Hsent|].
        rewrite <- Hposts. symmetry. eapply posts_failed; [lia|eassumption].
  - destruct Ht as (Hk & Hsent & Hposts).
    destruct (Nat.ltb_spec (S k) 3) as [_|Hge]; [|lia]. simplify_eq.
    apply (trace_send s i (S k) (Posting (S k)) _ Hinv Hlt). cbn.
    split; [lia|]. split; [|exact Hposts].
    rewrite Hsent. symmetry. apply (seq_S (S k) 0).
  - discriminate.
Qed.

Lemma trace_init (n m : nat) : trace_inv env (init n m).
Proof.
  intros i. cbn [init tasks net].
  destruct (replicate m Waiting !! i) as [t|] eqn:E; [|reflexivity].
  apply lookup_replicate in E as [-> _]. reflexivity.
Qed.

Lemma steps_trace (k : nat) (s s' : system) :
  trace_inv env s -> steps env k s s' -> trace_inv env s'.
Proof.
  intros Hinv Hsteps. induction Hsteps as [s|k i s s1 s2 Hstep _ IH]; [exact Hinv|].
  apply IH. eapply step_trace; eassumption.
Qed.

End trace.

(** X14: under every interleaving the event loop sends for a row the
    attempts 0, 1, ... in order without a gap, at most three of them; for a
    row whose task has returned they are exactly the attempts the executor
    makes for that row on its own.  Running the requests concurrently
    neither adds, drops nor reorders the requests of a row, and nothing is
    sent for a row that does not exist. *)
Theorem requests_of_a_row (env : nat -> nat -> http_outcome) (n m k : nat)
    (s : system) (i : nat) :
  steps env k (init n m) s ->
  row_requests i (net s) = seq 0 (length (row_requests i (net s))) /\
  length (row_requests i (net s)) <= 3 /\
  (forall r, tasks s !! i = Some (Done r) ->
     row_requests i (net s) = attempts_of (fst (get_extended_description (env i)))) /\
  (m <= i -> row_requests i (net s) = []).
Proof.
  intros Hsteps.
  pose proof (steps_trace env k _ _ (trace_init env n m) Hsteps i) as Ht.
  destruct (LoopSpec.steps_inv env n m k _ _ (LoopSpec.inv_init env n m) Hsteps) as [Hsys _].
  pose proof (Invariants.inv_len _ _ _ _ Hsys) as Hlen.
  destruct (tasks s !! i) as [t|] eqn:Hi.
  - assert (Hlt : i < m) by (rewrite <- Hlen; eapply lookup_lt_Some; eassumption).
    destruct t as [|a|a|r]; cbn [sent] in Ht.
    + rewrite Ht. cbn. repeat split; try lia. discriminate.
    + destruct Ht as (Ha & -> & _). rewrite length_seq.
      repeat split; try lia. discriminate.
    + destruct Ht as (Ha & -> & _). rewrite length_seq.
      repeat split; try lia. discriminate.
    + rewrite Ht.
      destruct (posts_shape (env i)) as [E | [E | E]]; rewrite E; cbn;
        (repeat split; try lia; intros _ _; rewrite <- E; apply posts_from_0).
  - rewrite Ht. cbn. repeat split; try lia. discriminate.
Qed.

Lemma requests_of_a_row_witness :
  row_requests 0 (net (run env_mixed (concat (round_robin 5 30)) (init 2 5))) = [0; 1; 2] /\
  row_requests 1 (net (run env_mixed (concat (round_robin 5 30)) (init 2 5))) = [0].
Proof.
  destruct (LoopSpec.run_steps env_mixed (concat (round_robin 5 30)) (init 2 5)) as [k Hk].
  split.
  - rewrite (proj1 (proj2 (proj2 (requests_of_a_row env_mixed 2 5 k _ 0 Hk)))
               (Some (Some 7%Z, "Reads the profile"))); reflexivity.
  - rewrite (proj1 (proj2 (proj2 (requests_of_a_row env_mixed 2 5 k _ 1 Hk)))
               (Some (Some 12%Z, "Sends mail"))); reflexivity.
Defined.

End TraceSpec.
